(** * The presence heartbeat writer of the Xbox Live services API

    A shallow embedding of [Source/Services/Presence/presence_writer.cpp]:
    the registration table of per-user presence services, the lifecycle
    flag, the minute countdown driven by the timer, the single-flight flag
    around a write round, and the completion handlers that feed the
    server's interval hint back into the countdown.

    The object's members keep their C++ names.  Everything the writer does
    to its surroundings (log lines, calls into a presence service, starting
    and stopping the timer) is recorded in an event log, and the tasks and
    continuations it hands to the task library are kept in the state, so
    that the handlers can run later, one atomic step at a time.  A call
    into a presence service may raise: [set_inactive_in_title] catches
    that, [set_active_in_title] does not, and its result says whether it
    returned or was left by an exception. *)

From Stdlib Require Import ZArith Lia.
From stdpp Require Import base option list strings gmap fin_maps.

Local Open Scope Z_scope.

(** ** Collaborators *)

(** [string_t] is the platform string type of the SDK. *)
Abbreviation string_t := string (only parsing).

(** [user_context]: only [xbox_user_id()] is used by the writer. *)
Record user_context := mk_user_context { xbox_user_id : string_t }.

(** A [std::shared_ptr<presence_service_impl>].  [start_writer] dereferences
    the pointer before storing it, so every stored pointer is non-null;
    [service_object] stands for the identity of the pointee. *)
Record presence_service_impl := mk_presence_service_impl {
  m_userContext : user_context;
  service_object : nat
}.

(** [xbox_live_result<uint32_t>]: [err] is the value of the error code
    ([!err()] holds exactly when it is 0), [payload] the heartbeat interval
    returned by the service, a [uint32_t]. *)
Record xbox_live_result := mk_xbox_live_result {
  err : Z;
  err_message : string;
  payload : Z
}.

#[global] Instance user_context_eq_dec : EqDecision user_context.
Proof. solve_decision. Defined.
#[global] Instance presence_service_impl_eq_dec : EqDecision presence_service_impl.
Proof. solve_decision. Defined.
#[global] Instance xbox_live_result_eq_dec : EqDecision xbox_live_result.
Proof. solve_decision. Defined.

(** ** Observable effects

    [call_set_presence_helper svc b t]: the call returned and its task got
    the index [t]; [raise_set_presence_helper svc b]: the call raised an
    exception instead. *)

Inductive event :=
| LOG_INFO (msg : string)
| LOG_ERROR (msg : string)
| LOGS_ERROR (msg : string) (code : Z) (detail : string)
| call_set_presence (svc : presence_service_impl) (isUserActiveInTitle : bool)
| call_set_presence_helper (svc : presence_service_impl)
    (isUserActiveInTitle : bool) (task_id : nat)
| raise_set_presence_helper (svc : presence_service_impl)
    (isUserActiveInTitle : bool)
| timer_start
| timer_stop.

#[global] Instance event_eq_dec : EqDecision event.
Proof. solve_decision. Defined.

(** ** Continuations attached with [when_all(...).then(...)]

    A continuation waits for the tasks in [awaited] (in the order of the
    [writeTasks] vector it was built from).  Its body is two steps: the
    store to [m_isCallInProgress] (with the log line after it), then the
    update of the countdown from the last result. *)
Inductive continuation_stage := attached | stored | finished.

#[global] Instance continuation_stage_eq_dec : EqDecision continuation_stage.
Proof. solve_decision. Defined.

Record continuation := mk_continuation {
  awaited : list nat;
  stage : continuation_stage
}.

(** ** The writer and the task runtime around it

    The members are declared in [presence_internal.h], which is not among
    the sources at hand; their types are read off their uses.  The countdown
    [m_heartBeatDelayInMins] is decremented and compared with 0: it is a
    signed integer, kept here as a [Z]. *)

Record world := mk_world {
  m_writerInProgress : bool;
  m_heartBeatDelayInMins : Z;
  m_isCallInProgress : bool;
  m_presenceServices : gmap string presence_service_impl;
  (** [m_timerComplete] is only assigned in [start_timer] and [stop_writer];
      before the first [start_timer] no timer loop exists, which the initial
      value [true] stands for. *)
  m_timerComplete : bool;
  (** write tasks created so far, by index; [None] while still running *)
  tasks : list (option xbox_live_result);
  continuations : list continuation;
  log : list event
}.

Definition set_writerInProgress (b : bool) (w : world) : world :=
  mk_world b (m_heartBeatDelayInMins w) (m_isCallInProgress w)
    (m_presenceServices w) (m_timerComplete w) (tasks w) (continuations w) (log w).

Definition set_heartBeatDelayInMins (d : Z) (w : world) : world :=
  mk_world (m_writerInProgress w) d (m_isCallInProgress w)
    (m_presenceServices w) (m_timerComplete w) (tasks w) (continuations w) (log w).

Definition set_isCallInProgress (b : bool) (w : world) : world :=
  mk_world (m_writerInProgress w) (m_heartBeatDelayInMins w) b
    (m_presenceServices w) (m_timerComplete w) (tasks w) (continuations w) (log w).

Definition set_presenceServices (m : gmap string presence_service_impl)
    (w : world) : world :=
  mk_world (m_writerInProgress w) (m_heartBeatDelayInMins w) (m_isCallInProgress w)
    m (m_timerComplete w) (tasks w) (continuations w) (log w).

Definition set_timerComplete (b : bool) (w : world) : world :=
  mk_world (m_writerInProgress w) (m_heartBeatDelayInMins w) (m_isCallInProgress w)
    (m_presenceServices w) b (tasks w) (continuations w) (log w).

Definition set_tasks (ts : list (option xbox_live_result)) (w : world) : world :=
  mk_world (m_writerInProgress w) (m_heartBeatDelayInMins w) (m_isCallInProgress w)
    (m_presenceServices w) (m_timerComplete w) ts (continuations w) (log w).

Definition set_continuations (cs : list continuation) (w : world) : world :=
  mk_world (m_writerInProgress w) (m_heartBeatDelayInMins w) (m_isCallInProgress w)
    (m_presenceServices w) (m_timerComplete w) (tasks w) cs (log w).

(** The log grows at its end. *)
Definition emit (e : event) (w : world) : world :=
  mk_world (m_writerInProgress w) (m_heartBeatDelayInMins w) (m_isCallInProgress w)
    (m_presenceServices w) (m_timerComplete w) (tasks w) (continuations w)
    (log w ++ [e]).

(** A call either returns or leaves by an exception; either way the
    writer is left in some state. *)
Inductive outcome :=
| returned (w : world)
| raised (w : world).

Definition state_of (o : outcome) : world :=
  match o with returned w | raised w => w end.

(** The environment in which no call of [set_presence_helper] raises. *)
Definition no_throw : presence_service_impl → bool := λ _, false.

(** ** [presence_writer::presence_writer] *)
Definition presence_writer : world :=
  {| m_writerInProgress := false;
     m_heartBeatDelayInMins := 0;
     m_isCallInProgress := false;
     m_presenceServices := ∅;
     m_timerComplete := true;
     tasks := [];
     continuations := [];
     log := [] |}.

(** ** [presence_writer::start_timer]

    Both variants arm a one-minute periodic trigger; the portable one
    clears [m_timerComplete] and loops until it is set. *)
Definition start_timer (w : world) : world :=
  emit timer_start (set_timerComplete false w).

(** ** [presence_writer::start_writer]

    [start_writer] hands [start_timer] to a detached task.  The task is
    taken to run at once, before the call returns.  A schedule in which the
    task only starts after a later [stop_writer], so that its
    [m_timerComplete = false] lands after the stop, is not among the runs
    considered here: what is stated about the timer after a [stop_writer]
    holds for the schedules in which the task has started before. *)
Definition start_writer (presenceServiceImpl : presence_service_impl)
    (w : world) : world :=
  let startWriter := negb (m_writerInProgress w) in
  let w1 := if m_writerInProgress w then w else set_writerInProgress true w in
  let id := xbox_user_id (m_userContext presenceServiceImpl) in
  match m_presenceServices w1 !! id with
  | None =>
      let w2 := emit (LOG_INFO "Add new presence service into writer") w1 in
      let w3 := set_presenceServices
                  (<[id := presenceServiceImpl]> (m_presenceServices w2)) w2 in
      if startWriter then start_timer w3 else w3
  | Some _ =>
      emit (LOG_INFO "Presence service for the user already exsit, return") w1
  end.

(** ** [presence_writer::set_inactive_in_title]

    [throws] tells whether [set_presence(false)] raised an exception. *)
Definition set_inactive_in_title (throws : bool)
    (presenceServiceImpl : presence_service_impl) (w : world) : world :=
  let w1 := emit (call_set_presence presenceServiceImpl false) w in
  if throws then emit (LOG_ERROR "Set presence inactive fail") w1 else w1.

(** ** [presence_writer::stop_writer] *)
Definition stop_writer (throws : bool) (xboxLiveUserId : string_t)
    (w : world) : world :=
  if m_writerInProgress w then
    let w1 :=
      match m_presenceServices w !! xboxLiveUserId with
      | Some presenceService =>
          let w' := set_inactive_in_title throws presenceService w in
          set_presenceServices (delete xboxLiveUserId (m_presenceServices w')) w'
      | None => w
      end in
    let w2 :=
      if decide (m_presenceServices w1 = ∅)
      then set_heartBeatDelayInMins 0 (set_writerInProgress false w1)
      else w1 in
    emit timer_stop (set_timerComplete true w2)
  else w.

(** ** [presence_writer::set_active_in_title] *)

(** [m_isCallInProgress.compare_exchange_strong(expected, desired)] *)
Definition compare_exchange_strong (expected desired : bool) (w : world)
    : bool * world :=
  if decide (m_isCallInProgress w = expected)
  then (true, set_isCallInProgress desired w)
  else (false, w).

(** One pass through the body of the [for] loop: the write task for this
    entry is pushed onto [writeTasks], and a continuation over the vector as
    it stands now is attached.  (The stored pointers are never null, so the
    guard around [push_back] always passes.) *)
Definition write_one (acc : world * list nat)
    (presencePair : string_t * presence_service_impl) : world * list nat :=
  let '(w, writeTasks) := acc in
  let task_id := length (tasks w) in
  let w1 := emit (call_set_presence_helper presencePair.2 true task_id)
              (set_tasks (tasks w ++ [None]) w) in
  let writeTasks' := writeTasks ++ [task_id] in
  (set_continuations (continuations w1 ++ [mk_continuation writeTasks' attached]) w1,
   writeTasks').

(** The [for] loop.  [helper_throws] tells for which services the call
    [set_presence_helper(true, presence_data())] raises: nothing in
    [set_active_in_title] catches it, so the loop and the function are left
    at that point, with what earlier passes have done still in place. *)
Fixpoint write_all (helper_throws : presence_service_impl → bool)
    (entries : list (string_t * presence_service_impl))
    (acc : world * list nat) : outcome :=
  match entries with
  | [] => returned acc.1
  | presencePair :: rest =>
      if helper_throws presencePair.2
      then raised (emit (raise_set_presence_helper presencePair.2 true) acc.1)
      else write_all helper_throws rest (write_one acc presencePair)
  end.

Definition set_active_in_title (helper_throws : presence_service_impl → bool)
    (w : world) : outcome :=
  match compare_exchange_strong false true w with
  | (true, w1) =>
      let w2 := emit (LOG_INFO "Start presence writing.") w1 in
      write_all helper_throws (map_to_list (m_presenceServices w2)) (w2, [])
  | (false, w1) =>
      returned (emit (LOG_INFO "Writting in progress, skip presence writing.") w1)
  end.

(** ** [presence_writer::handle_timer_trigger] *)
Definition handle_timer_trigger (helper_throws : presence_service_impl → bool)
    (w : world) : outcome :=
  let w1 := emit (LOG_INFO "Start presence writer timer trigger") w in
  let w2 := set_heartBeatDelayInMins (m_heartBeatDelayInMins w1 - 1) w1 in
  if 0 <? m_heartBeatDelayInMins w2 then returned w2
  else set_active_in_title helper_throws w2.

(** ** Completion of a write round *)

(** The vector handed to a continuation by [when_all]: the results of the
    awaited tasks, in order, once every one of them has completed. *)
Definition when_all (ts : list (option xbox_live_result)) (ids : list nat)
    : option (list xbox_live_result) :=
  mapM (λ i, mjoin (ts !! i)) ids.

(** First statements of the continuation: release the flag, log.  (The
    writer is a process-wide singleton: the weak pointer always locks.) *)
Definition continuation_store (w : world) : world :=
  emit (LOG_INFO "Presence writing finish.") (set_isCallInProgress false w).

Definition set_stage (cid : nat) (st : continuation_stage) (w : world) : world :=
  set_continuations
    (alter (λ c, mk_continuation (awaited c) st) cid (continuations w)) w.

(** ** The countdown as a machine integer

    Modelled from the spec: the declaration of [m_heartBeatDelayInMins] is in
    the class header, which is not among the sources; the spec gives the
    countdown as a signed integer, taken here as the 32-bit [int].
    [m_heartBeatDelayInMins = heartBeat->payload()] assigns a [uint32_t] to
    it: a value up to [INT_MAX] is kept, a larger one wraps around to the
    negative numbers. *)
Definition int_of_uint32_t (n : Z) : Z :=
  let u := n mod 4294967296 in
  if u <? 2147483648 then u else u - 4294967296.

Section Writer.

(** [presence_writer::s_defaultHeartBeatDelayInMins] is a static constant
    whose value is given in the header. *)
Variable s_defaultHeartBeatDelayInMins : Z.

(** The interval a result stands for: "only look at the last result".  The
    payload is assigned to the countdown, which converts it. *)
Definition next_delay (heartBeat : xbox_live_result) : Z :=
  if decide (err heartBeat = 0) then int_of_uint32_t (payload heartBeat)
  else s_defaultHeartBeatDelayInMins.

(** Remaining statements of the continuation, on [heartBeat = results.end() - 1]. *)
Definition continuation_update (results : list xbox_live_result) (w : world)
    : option world :=
  heartBeat ← last results;
  if decide (err heartBeat = 0)
  then Some (set_heartBeatDelayInMins (int_of_uint32_t (payload heartBeat)) w)
  else Some (set_heartBeatDelayInMins s_defaultHeartBeatDelayInMins
               (emit (LOGS_ERROR
                        "Error detected on presence writing, using default interval for next write:"
                        (err heartBeat) (err_message heartBeat)) w)).

(** ** Atomic steps of the system

    Calls from the title ([start_writer], [stop_writer]), the timer firing,
    a write task completing with a result, and the two halves of a
    continuation whose tasks have all completed.  A run is made of calls
    that return: in a tick no [set_presence_helper] raises ([no_throw]); what
    an exception does is stated about the functions themselves. *)

Inductive label :=
| do_start_writer (presenceServiceImpl : presence_service_impl)
| do_stop_writer (xboxLiveUserId : string_t) (set_presence_throws : bool)
| do_timer_elapsed
| do_task_complete (task_id : nat) (result : xbox_live_result)
| do_continuation_store (cid : nat)
| do_continuation_update (cid : nat).

Definition step (l : label) (w : world) : option world :=
  match l with
  | do_start_writer svc => Some (start_writer svc w)
  | do_stop_writer id throws => Some (stop_writer throws id w)
  | do_timer_elapsed =>
      (* the timer loop leaves once [m_timerComplete] is set *)
      if m_timerComplete w then None
      else match handle_timer_trigger no_throw w with
           | returned w' => Some w'
           | raised _ => None
           end
  | do_task_complete tid r =>
      match tasks w !! tid with
      | Some None => Some (set_tasks (<[tid := Some r]> (tasks w)) w)
      | _ => None
      end
  | do_continuation_store cid =>
      c ← continuations w !! cid;
      _ ← when_all (tasks w) (awaited c);
      if decide (stage c = attached)
      then Some (set_stage cid stored (continuation_store w))
      else None
  | do_continuation_update cid =>
      c ← continuations w !! cid;
      results ← when_all (tasks w) (awaited c);
      if decide (stage c = stored)
      then set_stage cid finished <$> continuation_update results w
      else None
  end.

Fixpoint run (ls : list label) (w : world) : option world :=
  match ls with
  | [] => Some w
  | l :: ls' => step l w ≫= run ls'
  end.

Inductive reachable : world → Prop :=
| reachable_new : reachable presence_writer
| reachable_step l w w' : reachable w → step l w = Some w' → reachable w'.

End Writer.


(** * Vocabulary of the properties *)

(** The snapshot the loop of [set_active_in_title] iterates over. *)
Definition snapshot (w : world) : list (string * presence_service_impl) :=
  map_to_list (m_presenceServices w).

Definition user_of (svc : presence_service_impl) : string :=
  xbox_user_id (m_userContext svc).

(** The state in which the executor, and a tick, return when no call
    raises. *)
Definition set_active_in_title_done (w : world) : world :=
  state_of (set_active_in_title no_throw w).

Definition handle_timer_trigger_done (w : world) : world :=
  state_of (handle_timer_trigger no_throw w).

(** The lifecycle flag says whether anyone is registered. *)
Definition running_iff_registered (w : world) : Prop :=
  m_writerInProgress w = true ↔ m_presenceServices w ≠ ∅.

(** ** Reading the event log *)

(** Both branches of [set_active_in_title] open with a log line of their
    own: these lines count the calls of the executor. *)
Definition enters_executor (e : event) : Prop :=
  e = LOG_INFO "Start presence writing." ∨
  e = LOG_INFO "Writting in progress, skip presence writing.".

#[global] Instance enters_executor_dec (e : event) : Decision (enters_executor e).
Proof. unfold enters_executor. apply _. Defined.

Definition executor_entries (l : list event) : nat :=
  length (filter enters_executor l).

(** Rounds that were begun, as opposed to skipped. *)
Definition rounds_begun (l : list event) : nat :=
  length (filter (λ e, e = LOG_INFO "Start presence writing.") l).

(** Calls into a presence service. *)
Definition is_presence_call (e : event) : Prop :=
  match e with
  | call_set_presence _ _ | call_set_presence_helper _ _ _
  | raise_set_presence_helper _ _ => True
  | _ => False
  end.

#[global] Instance is_presence_call_dec (e : event) : Decision (is_presence_call e).
Proof. destruct e; simpl; apply _. Defined.

Definition timer_starts (l : list event) : nat :=
  length (filter (λ e, e = timer_start) l).

Definition timer_stops (l : list event) : nat :=
  length (filter (λ e, e = timer_stop) l).

(** ** Invariants of the running system *)

(** A continuation as the loop attaches it: not yet run, over a non-empty
    vector of tasks that exist. *)
Definition fresh_continuation (bound : nat) (c : continuation) : Prop :=
  stage c = attached ∧ awaited c ≠ [] ∧ Forall (λ i, (i < bound)%nat) (awaited c).

(** Every continuation waits for at least one task, and only for tasks that
    exist. *)
Definition continuations_well_formed (w : world) : Prop :=
  Forall (λ c, awaited c ≠ [] ∧
               Forall (λ i, (i < length (tasks w))%nat) (awaited c))
    (continuations w).

(** While the flag is set, some continuation has yet to run. *)
Definition flag_has_handler (w : world) : Prop :=
  m_isCallInProgress w = true →
  ∃ cid c, continuations w !! cid = Some c ∧ stage c = attached.

(** The timer only runs while somebody is registered. *)
Definition timer_has_users (w : world) : Prop :=
  m_timerComplete w = false → m_presenceServices w ≠ ∅.

Definition writer_inv (w : world) : Prop :=
  running_iff_registered w ∧ timer_has_users w ∧
  continuations_well_formed w ∧ flag_has_handler w.

(** ** Letting a round run to its end

    [drain answer w] is a schedule for everything still outstanding in [w]:
    every running write completes with the result [answer] gives it, then
    every continuation runs what is left of its body. *)
Definition running_tasks (w : world) : list nat :=
  filter (λ i, tasks w !! i = Some None) (seq 0 (length (tasks w))).

Definition remaining_steps (cid : nat) (c : continuation) : list label :=
  match stage c with
  | attached => [do_continuation_store cid; do_continuation_update cid]
  | stored => [do_continuation_update cid]
  | finished => []
  end.

Definition drain (answer : nat → xbox_live_result) (w : world) : list label :=
  ((λ i, do_task_complete i (answer i)) <$> running_tasks w) ++
  concat (imap remaining_steps (continuations w)).

Definition all_resolved (w : world) : Prop :=
  ∀ i, (i < length (tasks w))%nat → ∃ r, tasks w !! i = Some (Some r).

Definition finish (c : continuation) : continuation :=
  mk_continuation (awaited c) finished.

(** ** Triggers

    What can ask for a round: the timer trigger, or a call of
    [set_active_in_title] itself.  A sequence of triggers is fired one after
    the other until one of them raises. *)
Inductive trigger := timer_trigger | direct_trigger.

Definition fire (helper_throws : presence_service_impl → bool) (w : world)
    (t : trigger) : outcome :=
  match t with
  | timer_trigger => handle_timer_trigger helper_throws w
  | direct_trigger => set_active_in_title helper_throws w
  end.

Fixpoint fire_all (helper_throws : presence_service_impl → bool)
    (ts : list trigger) (w : world) : outcome :=
  match ts with
  | [] => returned w
  | t :: ts' =>
      match fire helper_throws w t with
      | returned w' => fire_all helper_throws ts' w'
      | raised w' => raised w'
      end
  end.

(** ** Sample data for concrete runs *)

Definition alice : presence_service_impl :=
  mk_presence_service_impl (mk_user_context "alice") 1.
Definition alice_again : presence_service_impl :=
  mk_presence_service_impl (mk_user_context "alice") 4.
Definition bob : presence_service_impl :=
  mk_presence_service_impl (mk_user_context "bob") 2.
Definition carol : presence_service_impl :=
  mk_presence_service_impl (mk_user_context "carol") 3.

Definition hint_3 : xbox_live_result := mk_xbox_live_result 0 "" 3.

Definition hint_1 : xbox_live_result := mk_xbox_live_result 0 "" 1.

Definition failed_write : xbox_live_result :=
  mk_xbox_live_result 500 "Internal Server Error" 0.


Definition two_users : world :=
  start_writer bob (start_writer alice presence_writer).


(** Every call of [set_presence_helper] raises. *)
Definition all_throw : presence_service_impl → bool := λ _, true.

(** * Lemmas and theorems *)

(** ** What the loop of [set_active_in_title] leaves behind *)

Lemma write_one_loop (l : list (string * presence_service_impl)) :
  ∀ (w : world) (writeTasks : list nat),
    foldl write_one (w, writeTasks) l =
    (mk_world (m_writerInProgress w) (m_heartBeatDelayInMins w)
       (m_isCallInProgress w) (m_presenceServices w) (m_timerComplete w)
       (tasks w ++ replicate (length l) None)
       (continuations w ++
          imap (λ k _, mk_continuation
                         (writeTasks ++ seq (length (tasks w)) (S k)) attached) l)
       (log w ++
          imap (λ k p, call_set_presence_helper p.2 true (length (tasks w) + k)%nat) l),
     writeTasks ++ seq (length (tasks w)) (length l)).
Proof.
  induction l as [|p l IH]; intros w writeTasks.
  - destruct w; simpl. by rewrite !app_nil_r.
  - simpl foldl. rewrite IH. simpl.
    rewrite !length_app. simpl.
    rewrite <- !(app_assoc _ [_]). simpl.
    replace (length (tasks w) + 1)%nat with (S (length (tasks w))) by lia.
    f_equal. f_equal.
    + f_equal. f_equal. apply imap_ext. intros k x _. simpl.
      by rewrite <- app_assoc.
    + f_equal. f_equal; [f_equal; lia|].
      apply imap_ext. intros k x _. simpl. f_equal. lia.
Qed.

(** When no call raises, the loop is the fold of its body. *)
Lemma write_all_returns (th : presence_service_impl → bool)
    (entries : list (string * presence_service_impl)) :
  ∀ acc, Forall (λ p, th p.2 = false) entries →
    write_all th entries acc = returned (foldl write_one acc entries).1.
Proof.
  induction entries as [|p entries IH]; intros acc Hall; simpl; [done|].
  apply Forall_cons_1 in Hall as [-> Hall]. by apply IH.
Qed.

(** In general it runs up to the first call that raises. *)
Lemma write_all_cases (th : presence_service_impl → bool)
    (entries : list (string * presence_service_impl)) :
  ∀ acc,
    write_all th entries acc = returned (foldl write_one acc entries).1 ∨
    ∃ pre p post, entries = pre ++ p :: post ∧ th p.2 = true ∧
      write_all th entries acc =
        raised (emit (raise_set_presence_helper p.2 true)
                  (foldl write_one acc pre).1).
Proof.
  induction entries as [|p entries IH]; intros acc; simpl; [by left|].
  destruct (th p.2) eqn:Hth.
  - right. by exists [], p, entries.
  - destruct (IH (write_one acc p)) as [Hret | (pre & q & post & -> & Hq & Hraise)].
    + by left.
    + right. by exists (p :: pre), q, post.
Qed.

Lemma set_active_in_title_no_throw (w : world) :
  set_active_in_title no_throw w = returned (set_active_in_title_done w).
Proof.
  unfold set_active_in_title_done, set_active_in_title.
  destruct (compare_exchange_strong false true w) as [[|] w1]; [|done].
  simpl. rewrite write_all_returns; [done|]. by apply Forall_forall.
Qed.

Lemma set_active_in_title_begin (w : world) :
  m_isCallInProgress w = false →
  set_active_in_title_done w =
    mk_world (m_writerInProgress w) (m_heartBeatDelayInMins w) true
      (m_presenceServices w) (m_timerComplete w)
      (tasks w ++ replicate (length (snapshot w)) None)
      (continuations w ++
         imap (λ k _, mk_continuation (seq (length (tasks w)) (S k)) attached)
           (snapshot w))
      ((log w ++ [LOG_INFO "Start presence writing."]) ++
         imap (λ k p, call_set_presence_helper p.2 true (length (tasks w) + k)%nat)
           (snapshot w)).
Proof.
  intros Hflag.
  unfold set_active_in_title_done, set_active_in_title, compare_exchange_strong.
  rewrite Hflag. simpl.
  rewrite write_all_returns by (by apply Forall_forall).
  by rewrite write_one_loop.
Qed.

(** A call that finds the flag set returns at once, whatever the
    environment. *)
Lemma set_active_in_title_skips (th : presence_service_impl → bool) (w : world) :
  m_isCallInProgress w = true →
  set_active_in_title th w =
    returned (emit (LOG_INFO "Writting in progress, skip presence writing.") w).
Proof.
  intros Hflag. unfold set_active_in_title, compare_exchange_strong.
  by rewrite Hflag.
Qed.

Lemma set_active_in_title_skip (w : world) :
  m_isCallInProgress w = true →
  set_active_in_title_done w =
    emit (LOG_INFO "Writting in progress, skip presence writing.") w.
Proof.
  intros Hflag. unfold set_active_in_title_done.
  by rewrite set_active_in_title_skips.
Qed.

(** The two ways a call can end: it returns, in the state it returns in
    when nothing raises; or the call for some entry [p] raised, after the
    passes for the entries before [p]. *)
Lemma set_active_in_title_cases (th : presence_service_impl → bool) (w : world) :
  set_active_in_title th w = returned (set_active_in_title_done w) ∨
  m_isCallInProgress w = false ∧
  ∃ pre p post, snapshot w = pre ++ p :: post ∧ th p.2 = true ∧
    set_active_in_title th w =
      raised
        (mk_world (m_writerInProgress w) (m_heartBeatDelayInMins w) true
           (m_presenceServices w) (m_timerComplete w)
           (tasks w ++ replicate (length pre) None)
           (continuations w ++
              imap (λ k _, mk_continuation (seq (length (tasks w)) (S k)) attached)
                pre)
           (((log w ++ [LOG_INFO "Start presence writing."]) ++
               imap (λ k p, call_set_presence_helper p.2 true
                              (length (tasks w) + k)%nat) pre) ++
              [raise_set_presence_helper p.2 true])).
Proof.
  destruct (m_isCallInProgress w) eqn:Hflag.
  { left. rewrite set_active_in_title_skips, set_active_in_title_skip; done. }
  unfold set_active_in_title_done, set_active_in_title, compare_exchange_strong.
  rewrite Hflag. simpl.
  set (w2 := emit (LOG_INFO "Start presence writing.") (set_isCallInProgress true w)).
  destruct (write_all_cases th (map_to_list (m_presenceServices w)) (w2, []))
    as [Hret | (pre & p & post & Hsplit & Hp & Hraise)].
  - left. rewrite Hret. f_equal.
    rewrite write_all_returns by (by apply Forall_forall). done.
  - right. split; [done|]. exists pre, p, post. split; [done|]. split; [done|].
    rewrite Hraise, write_one_loop. done.
Qed.

Lemma set_active_in_title_returned (th : presence_service_impl → bool)
    (w w' : world) :
  set_active_in_title th w = returned w' → w' = set_active_in_title_done w.
Proof.
  intros Hret.
  destruct (set_active_in_title_cases th w)
    as [Heq | (_ & pre & p & post & _ & _ & Heq)]; rewrite Heq in Hret;
    by simplify_eq.
Qed.

(** [set_active_in_title] leaves the lifecycle members alone, however it
    ends. *)
Lemma set_active_in_title_frame_any (th : presence_service_impl → bool) (w : world) :
  m_writerInProgress (state_of (set_active_in_title th w)) = m_writerInProgress w ∧
  m_heartBeatDelayInMins (state_of (set_active_in_title th w))
    = m_heartBeatDelayInMins w ∧
  m_presenceServices (state_of (set_active_in_title th w)) = m_presenceServices w ∧
  m_timerComplete (state_of (set_active_in_title th w)) = m_timerComplete w.
Proof.
  destruct (set_active_in_title_cases th w)
    as [Heq | (_ & pre & p & post & _ & _ & Heq)]; rewrite Heq; simpl; [|done].
  destruct (m_isCallInProgress w) eqn:Hflag.
  - by rewrite set_active_in_title_skip.
  - by rewrite set_active_in_title_begin.
Qed.

Lemma set_active_in_title_frame (w : world) :
  m_writerInProgress (set_active_in_title_done w) = m_writerInProgress w ∧
  m_heartBeatDelayInMins (set_active_in_title_done w) = m_heartBeatDelayInMins w ∧
  m_presenceServices (set_active_in_title_done w) = m_presenceServices w ∧
  m_timerComplete (set_active_in_title_done w) = m_timerComplete w.
Proof. apply set_active_in_title_frame_any. Qed.

(** ** The tick *)

Lemma handle_timer_trigger_unfold (th : presence_service_impl → bool) (w : world) :
  handle_timer_trigger th w =
    let ticked :=
      set_heartBeatDelayInMins (m_heartBeatDelayInMins w - 1)
        (emit (LOG_INFO "Start presence writer timer trigger") w) in
    if 0 <? m_heartBeatDelayInMins w - 1 then returned ticked
    else set_active_in_title th ticked.
Proof. reflexivity. Qed.

Lemma handle_timer_trigger_no_throw (w : world) :
  handle_timer_trigger no_throw w = returned (handle_timer_trigger_done w).
Proof.
  unfold handle_timer_trigger_done. rewrite handle_timer_trigger_unfold.
  cbv zeta. destruct (0 <? m_heartBeatDelayInMins w - 1); [done|].
  by rewrite set_active_in_title_no_throw.
Qed.

Lemma handle_timer_trigger_returned (th : presence_service_impl → bool)
    (w w' : world) :
  handle_timer_trigger th w = returned w' → w' = handle_timer_trigger_done w.
Proof.
  unfold handle_timer_trigger_done. rewrite !handle_timer_trigger_unfold.
  cbv zeta. destruct (0 <? m_heartBeatDelayInMins w - 1).
  - intros Hret. by simplify_eq.
  - intros Hret. apply set_active_in_title_returned in Hret as ->.
    by rewrite set_active_in_title_no_throw.
Qed.

Lemma handle_timer_trigger_frame_any (th : presence_service_impl → bool) (w : world) :
  m_writerInProgress (state_of (handle_timer_trigger th w)) = m_writerInProgress w ∧
  m_heartBeatDelayInMins (state_of (handle_timer_trigger th w))
    = m_heartBeatDelayInMins w - 1 ∧
  m_presenceServices (state_of (handle_timer_trigger th w)) = m_presenceServices w ∧
  m_timerComplete (state_of (handle_timer_trigger th w)) = m_timerComplete w.
Proof.
  rewrite handle_timer_trigger_unfold. cbv zeta.
  destruct (0 <? m_heartBeatDelayInMins w - 1); [done|].
  by destruct (set_active_in_title_frame_any th
    (set_heartBeatDelayInMins (m_heartBeatDelayInMins w - 1)
       (emit (LOG_INFO "Start presence writer timer trigger") w))) as (-> & -> & -> & ->).
Qed.

Lemma handle_timer_trigger_frame (w : world) :
  m_writerInProgress (handle_timer_trigger_done w) = m_writerInProgress w ∧
  m_heartBeatDelayInMins (handle_timer_trigger_done w) = m_heartBeatDelayInMins w - 1 ∧
  m_presenceServices (handle_timer_trigger_done w) = m_presenceServices w ∧
  m_timerComplete (handle_timer_trigger_done w) = m_timerComplete w.
Proof. apply handle_timer_trigger_frame_any. Qed.

(** ** Registration and the lifecycle flag *)

Lemma start_writer_running (svc : presence_service_impl) (w : world) :
  m_writerInProgress (start_writer svc w) = true.
Proof.
  unfold start_writer.
  destruct (m_writerInProgress w) eqn:Hrun; simpl;
    destruct (m_presenceServices w !! _); simpl; done.
Qed.

Lemma start_writer_services (svc : presence_service_impl) (w : world) :
  m_presenceServices (start_writer svc w) =
    match m_presenceServices w !! user_of svc with
    | Some _ => m_presenceServices w
    | None => <[user_of svc := svc]> (m_presenceServices w)
    end.
Proof.
  unfold start_writer, user_of.
  destruct (m_writerInProgress w) eqn:Hrun; simpl;
    destruct (m_presenceServices w !! _); simpl; done.
Qed.

Lemma start_writer_registered (svc : presence_service_impl) (w : world) :
  is_Some (m_presenceServices (start_writer svc w) !! user_of svc).
Proof.
  rewrite start_writer_services.
  destruct (m_presenceServices w !! user_of svc) eqn:Hfind.
  - by rewrite Hfind.
  - by rewrite lookup_insert_eq.
Qed.

(** The second of two registrations of one user takes the early [return]. *)
Lemma start_writer_again (svc : presence_service_impl) (w : world) :
  m_writerInProgress w = true →
  is_Some (m_presenceServices w !! user_of svc) →
  start_writer svc w =
    emit (LOG_INFO "Presence service for the user already exsit, return") w.
Proof.
  intros Hrun [old Hfind]. unfold start_writer, user_of in *.
  by rewrite Hrun, Hfind.
Qed.

Lemma stop_writer_idle (throws : bool) (id : string) (w : world) :
  m_writerInProgress w = false → stop_writer throws id w = w.
Proof. intros Hrun. unfold stop_writer. by rewrite Hrun. Qed.

Lemma stop_writer_services (throws : bool) (id : string) (w : world) :
  m_writerInProgress w = true →
  m_presenceServices (stop_writer throws id w) = delete id (m_presenceServices w).
Proof.
  intros Hrun. unfold stop_writer. rewrite Hrun.
  destruct (m_presenceServices w !! id) eqn:Hfind.
  - unfold set_inactive_in_title. destruct throws; simpl; case_decide; done.
  - rewrite (delete_id _ _ Hfind). case_decide; done.
Qed.

Lemma stop_writer_running (throws : bool) (id : string) (w : world) :
  m_writerInProgress w = true →
  m_writerInProgress (stop_writer throws id w) =
    bool_decide (delete id (m_presenceServices w) ≠ ∅).
Proof.
  intros Hrun. unfold stop_writer. rewrite Hrun.
  destruct (m_presenceServices w !! id) eqn:Hfind.
  - unfold set_inactive_in_title. destruct throws; simpl;
      case_decide as Hempty; simpl; rewrite ?Hrun;
      by (rewrite bool_decide_eq_false_2 by auto) ||
         by (rewrite bool_decide_eq_true_2 by auto).
  - rewrite (delete_id _ _ Hfind).
    case_decide as Hempty; simpl; rewrite ?Hrun;
      by (rewrite bool_decide_eq_false_2 by auto) ||
         by (rewrite bool_decide_eq_true_2 by auto).
Qed.

Lemma start_writer_running_iff_registered (svc : presence_service_impl) (w : world) :
  running_iff_registered (start_writer svc w).
Proof.
  split; [intros _ | intros _; apply start_writer_running].
  intros Hempty. destruct (start_writer_registered svc w) as [x Hx].
  by rewrite Hempty, lookup_empty in Hx.
Qed.

Lemma stop_writer_running_iff_registered (throws : bool) (id : string) (w : world) :
  running_iff_registered w → running_iff_registered (stop_writer throws id w).
Proof.
  intros Hinv. destruct (m_writerInProgress w) eqn:Hrun.
  - unfold running_iff_registered.
    rewrite stop_writer_running, stop_writer_services by done.
    apply bool_decide_eq_true.
  - by rewrite stop_writer_idle.
Qed.

(** ** The two halves of a continuation *)

Lemma int_of_uint32_t_small (n : Z) :
  0 ≤ n < 2147483648 → int_of_uint32_t n = n.
Proof.
  intros Hn. unfold int_of_uint32_t.
  rewrite Z.mod_small by lia.
  destruct (Z.ltb_spec n 2147483648); [done | lia].
Qed.

Lemma int_of_uint32_t_large (n : Z) :
  2147483648 ≤ n < 4294967296 → int_of_uint32_t n = n - 4294967296.
Proof.
  intros Hn. unfold int_of_uint32_t.
  rewrite Z.mod_small by lia.
  destruct (Z.ltb_spec n 2147483648); [lia | done].
Qed.

Lemma next_delay_small (d : Z) (heartBeat : xbox_live_result) :
  err heartBeat = 0 → 0 ≤ payload heartBeat < 2147483648 →
  next_delay d heartBeat = payload heartBeat.
Proof.
  intros Herr Hsmall. unfold next_delay.
  rewrite decide_True by done. by apply int_of_uint32_t_small.
Qed.

Lemma next_delay_error (d : Z) (heartBeat : xbox_live_result) :
  err heartBeat ≠ 0 → next_delay d heartBeat = d.
Proof. intros Herr. unfold next_delay. by rewrite decide_False. Qed.

Lemma continuation_update_spec (d : Z) (results : list xbox_live_result)
    (w w' : world) :
  continuation_update d results w = Some w' →
  ∃ heartBeat, last results = Some heartBeat ∧
    m_heartBeatDelayInMins w' = next_delay d heartBeat ∧
    m_writerInProgress w' = m_writerInProgress w ∧
    m_isCallInProgress w' = m_isCallInProgress w ∧
    m_presenceServices w' = m_presenceServices w ∧
    m_timerComplete w' = m_timerComplete w ∧
    tasks w' = tasks w ∧
    continuations w' = continuations w.
Proof.
  unfold continuation_update, next_delay. intros Hupd.
  destruct (last results) as [heartBeat|]; [|done]. simpl in Hupd.
  exists heartBeat. case_decide; simplify_eq; done.
Qed.

Lemma continuation_update_total (d : Z) (results : list xbox_live_result)
    (w : world) :
  results ≠ [] → is_Some (continuation_update d results w).
Proof.
  intros Hne. unfold continuation_update.
  destruct (last results) as [heartBeat|] eqn:Hlast.
  - simpl. case_decide; eauto.
  - by apply last_None in Hlast.
Qed.

(** What each kind of step does, read off [step]. *)
Lemma step_timer_elapsed (d : Z) (w w' : world) :
  step d do_timer_elapsed w = Some w' →
  m_timerComplete w = false ∧ w' = handle_timer_trigger_done w.
Proof.
  simpl. rewrite handle_timer_trigger_no_throw.
  destruct (m_timerComplete w); naive_solver.
Qed.

Lemma step_task_complete (d : Z) (tid : nat) (r : xbox_live_result) (w w' : world) :
  step d (do_task_complete tid r) w = Some w' →
  tasks w !! tid = Some None ∧ w' = set_tasks (<[tid := Some r]> (tasks w)) w.
Proof. simpl. destruct (tasks w !! tid) as [[?|]|]; naive_solver. Qed.

Lemma step_continuation_store (d : Z) (cid : nat) (w w' : world) :
  step d (do_continuation_store cid) w = Some w' →
  ∃ c results, continuations w !! cid = Some c ∧ stage c = attached ∧
    when_all (tasks w) (awaited c) = Some results ∧
    w' = set_stage cid stored (continuation_store w).
Proof.
  simpl. intros Hstep.
  destruct (continuations w !! cid) as [c|] eqn:Hc; [|done]. simpl in Hstep.
  destruct (when_all (tasks w) (awaited c)) as [results|] eqn:Hall; [|done].
  exists c, results.
  destruct c as [ids [| |]]; simpl in *; by simplify_eq.
Qed.

Lemma step_continuation_update (d : Z) (cid : nat) (w w' : world) :
  step d (do_continuation_update cid) w = Some w' →
  ∃ c results w1, continuations w !! cid = Some c ∧ stage c = stored ∧
    when_all (tasks w) (awaited c) = Some results ∧
    continuation_update d results w = Some w1 ∧
    w' = set_stage cid finished w1.
Proof.
  simpl. intros Hstep.
  destruct (continuations w !! cid) as [c|] eqn:Hc; [|done]. simpl in Hstep.
  destruct (when_all (tasks w) (awaited c)) as [results|] eqn:Hall; [|done].
  destruct c as [ids [| |]]; simpl in *; try done.
  destruct (continuation_update d results w) as [w1|] eqn:Hupd; [|done].
  exists (mk_continuation ids stored), results, w1.
  simpl in Hstep. by injection Hstep as <-.
Qed.

(** Case analysis on a step, with the facts above in the context. *)
Ltac step_cases Hstep :=
  lazymatch type of Hstep with
  | step _ ?l _ = Some _ =>
      destruct l as [svc | id throws | | tid r | cid | cid];
      [ simpl in Hstep; injection Hstep as <-
      | simpl in Hstep; injection Hstep as <-
      | apply step_timer_elapsed in Hstep as [? ->]
      | apply step_task_complete in Hstep as [? ->]
      | apply step_continuation_store in Hstep as (c & results & ? & ? & ? & ->)
      | apply step_continuation_update in Hstep
          as (c & results & w1 & ? & ? & ? & Hupd & ->);
        pose proof (continuation_update_spec _ _ _ _ Hupd)
          as (heartBeat & Hlast & Hdelay & Ek_run & Ek_flag & Ek_table &
              Ek_timer & Ek_tasks & Ek_conts) ]
  end.

Lemma step_running_iff_registered (d : Z) (l : label) (w w' : world) :
  step d l w = Some w' → running_iff_registered w → running_iff_registered w'.
Proof.
  intros Hstep Hinv. step_cases Hstep.
  - apply start_writer_running_iff_registered.
  - by apply stop_writer_running_iff_registered.
  - unfold running_iff_registered.
    by destruct (handle_timer_trigger_frame w) as (-> & _ & -> & _).
  - done.
  - done.
  - unfold running_iff_registered in *. simpl. by rewrite Ek_run, Ek_table.
Qed.

Lemma reachable_running_iff_registered (d : Z) (w : world) :
  reachable d w → running_iff_registered w.
Proof.
  induction 1 as [|l w w' _ IH Hstep].
  - unfold running_iff_registered. simpl. split; [done|]. by intros [].
  - by eapply step_running_iff_registered.
Qed.

Lemma run_reachable (d : Z) (ls : list label) :
  ∀ w w', reachable d w → run d ls w = Some w' → reachable d w'.
Proof.
  induction ls as [|l ls IH]; intros w w' Hreach Hrun; simpl in Hrun.
  - by simplify_eq.
  - destruct (step d l w) as [w1|] eqn:Hstep; [|done]. simpl in Hrun.
    eapply IH; [|done]. by eapply reachable_step.
Qed.

Lemma run_app (d : Z) (ls1 ls2 : list label) (w : world) :
  run d (ls1 ++ ls2) w = run d ls1 w ≫= run d ls2.
Proof.
  revert w. induction ls1 as [|l ls1 IH]; intros w; simpl; [done|].
  destruct (step d l w) as [w1|]; simpl; [apply IH | done].
Qed.

(** C9: in every state reachable from the constructed writer the lifecycle
    flag [m_writerInProgress] is true exactly when the registration table is
    non-empty, and [start_writer] and [stop_writer] both preserve this. *)
Theorem running_flag_iff_table_nonempty (d : Z) :
  (∀ w, reachable d w →
     (m_writerInProgress w = true ↔ m_presenceServices w ≠ ∅)) ∧
  (∀ w, running_iff_registered w →
     (∀ svc, running_iff_registered (start_writer svc w)) ∧
     (∀ throws id, running_iff_registered (stop_writer throws id w))).
Proof.
  split.
  - apply reachable_running_iff_registered.
  - intros w Hinv. split.
    + intros svc. apply start_writer_running_iff_registered.
    + intros throws id. by apply stop_writer_running_iff_registered.
Qed.

Lemma running_flag_iff_table_nonempty_witness :
  (m_writerInProgress (stop_writer false "alice" (start_writer alice presence_writer)) = true
   ↔ m_presenceServices (stop_writer false "alice" (start_writer alice presence_writer)) ≠ ∅) ∧
  running_iff_registered (start_writer bob (start_writer alice presence_writer)).
Proof.
  split.
  - apply (proj1 (running_flag_iff_table_nonempty 5)).
    apply (reachable_step 5 (do_stop_writer "alice" false)
             (start_writer alice presence_writer)); [|reflexivity].
    apply (reachable_step 5 (do_start_writer alice) presence_writer);
      [apply reachable_new | reflexivity].
  - destruct (running_flag_iff_table_nonempty 5) as [_ Hkeeps].
    destruct (Hkeeps (start_writer alice presence_writer)
                (start_writer_running_iff_registered alice presence_writer))
      as [Hstart _].
    exact (Hstart bob).
Defined.

(** A registered user has exactly one entry in the table. *)
Lemma one_entry_per_user (m : gmap string presence_service_impl) (id : string) :
  is_Some (m !! id) →
  length (filter (λ p, p.1 = id) (map_to_list m)) = 1%nat.
Proof.
  intros [svc Hfind].
  rewrite <- (map_to_list_delete m id svc Hfind).
  rewrite filter_cons_True by done. simpl. f_equal.
  apply length_zero_iff_nil.
  assert (Forall (λ p, ¬ p.1 = id) (map_to_list (delete id m))) as Hall.
  { apply Forall_forall. intros [k v] Hin Heq. simpl in Heq. subst k.
    apply elem_of_map_to_list in Hin. by rewrite lookup_delete_eq in Hin. }
  induction Hall as [|p l Hp _ IH]; [done|].
  by rewrite filter_cons_False.
Qed.

(** C7: registering one user twice: the second [start_writer] takes the
    "already exists" return, leaves the table (and every member) as the
    first call left it, and the table holds exactly one entry for the user. *)
Theorem start_writer_twice (svc svc' : presence_service_impl) (w : world) :
  user_of svc' = user_of svc →
  let w1 := start_writer svc w in
  let w2 := start_writer svc' w1 in
  w2 = emit (LOG_INFO "Presence service for the user already exsit, return") w1 ∧
  m_presenceServices w2 = m_presenceServices w1 ∧
  m_presenceServices w2 !! user_of svc = m_presenceServices w1 !! user_of svc ∧
  length (filter (λ p, p.1 = user_of svc) (map_to_list (m_presenceServices w2))) = 1%nat.
Proof.
  intros Hsame w1 w2.
  assert (w2 = emit (LOG_INFO "Presence service for the user already exsit, return") w1)
    as Hw2.
  { apply start_writer_again; [apply start_writer_running|].
    rewrite Hsame. apply start_writer_registered. }
  rewrite Hw2. simpl. repeat split.
  apply one_entry_per_user, start_writer_registered.
Qed.

Lemma start_writer_twice_witness :
  start_writer alice_again (start_writer alice presence_writer) =
    emit (LOG_INFO "Presence service for the user already exsit, return")
      (start_writer alice presence_writer) ∧
  m_presenceServices (start_writer alice_again (start_writer alice presence_writer)) !! "alice"
    = Some alice.
Proof.
  pose proof (start_writer_twice alice alice_again presence_writer eq_refl)
    as (Hret & Htable & Hentry & Hone).
  split; [exact Hret|].
  etrans; [exact Hentry | reflexivity].
Defined.

Lemma filter_imap_nil {A B} (P : B → Prop) `{∀ x, Decision (P x)}
    (l : list A) :
  ∀ f : nat → A → B, (∀ k x, ¬ P (f k x)) → filter P (imap f l) = [].
Proof.
  induction l as [|x l IH]; intros f Hf; simpl; [done|].
  rewrite filter_cons_False by apply Hf. apply IH. intros k y. apply Hf.
Qed.

Lemma set_active_in_title_entries (w : world) :
  executor_entries (log (set_active_in_title_done w)) = S (executor_entries (log w)).
Proof.
  unfold executor_entries. destruct (m_isCallInProgress w) eqn:Hflag.
  - rewrite set_active_in_title_skip by done. simpl.
    rewrite filter_app, length_app. simpl. lia.
  - rewrite set_active_in_title_begin by done. simpl.
    rewrite !filter_app, !length_app. simpl.
    rewrite filter_imap_nil; [simpl; lia|].
    intros k x [Heq|Heq]; discriminate Heq.
Qed.

Lemma handle_timer_trigger_cases (w : world) :
  let d := m_heartBeatDelayInMins w - 1 in
  let ticked :=
    set_heartBeatDelayInMins d
      (emit (LOG_INFO "Start presence writer timer trigger") w) in
  (d ≤ 0 → handle_timer_trigger_done w = set_active_in_title_done ticked) ∧
  (0 < d → handle_timer_trigger_done w = ticked).
Proof.
  intros d ticked. unfold handle_timer_trigger_done.
  rewrite handle_timer_trigger_unfold. cbv zeta. fold d. fold ticked.
  split; intros Hd.
  - by rewrite (proj2 (Z.ltb_ge 0 d)).
  - by rewrite (proj2 (Z.ltb_lt 0 d)).
Qed.

Lemma handle_timer_trigger_entries (w : world) :
  executor_entries (log (handle_timer_trigger_done w)) =
    (executor_entries (log w) +
       if decide (m_heartBeatDelayInMins w - 1 ≤ 0)%Z then 1 else 0)%nat.
Proof.
  destruct (handle_timer_trigger_cases w) as [Hdue Hwait].
  assert (∀ w0, executor_entries
                  (log (emit (LOG_INFO "Start presence writer timer trigger") w0))
                = executor_entries (log w0)) as Hquiet.
  { intros w0. unfold executor_entries. simpl.
    rewrite filter_app, length_app. simpl. lia. }
  case_decide as Hd.
  - rewrite (Hdue Hd), set_active_in_title_entries.
    change (log (set_heartBeatDelayInMins ?d ?w0)) with (log w0).
    rewrite Hquiet. lia.
  - rewrite Hwait by lia.
    change (log (set_heartBeatDelayInMins ?d ?w0)) with (log w0).
    rewrite Hquiet. lia.
Qed.

Lemma set_active_in_title_entries_any (th : presence_service_impl → bool)
    (w : world) :
  executor_entries (log (state_of (set_active_in_title th w)))
    = S (executor_entries (log w)).
Proof.
  destruct (set_active_in_title_cases th w)
    as [Heq | (_ & pre & p & post & _ & _ & Heq)]; rewrite Heq; simpl.
  - apply set_active_in_title_entries.
  - unfold executor_entries. rewrite !filter_app, !length_app. simpl.
    rewrite filter_imap_nil; [simpl; lia|].
    intros k x [Hx|Hx]; discriminate Hx.
Qed.

(** When the calls for the registered users do not raise, the executor
    returns. *)
Lemma set_active_in_title_safe (th : presence_service_impl → bool) (w : world) :
  Forall (λ p, th p.2 = false) (snapshot w) →
  set_active_in_title th w = returned (set_active_in_title_done w).
Proof.
  intros Hsafe.
  destruct (set_active_in_title_cases th w)
    as [Heq | (_ & pre & p & post & Hsplit & Hp & _)]; [done|].
  rewrite Hsplit in Hsafe. apply Forall_app in Hsafe as [_ Hsafe].
  apply Forall_cons_1 in Hsafe as [Hp' _]. congruence.
Qed.

(** C8: a tick decrements the countdown by one; the executor is entered
    exactly when the decremented countdown is at most zero, and a tick that
    leaves it positive returns with nothing changed but the countdown (and
    its own log line). *)
Theorem handle_timer_trigger_tick (th : presence_service_impl → bool) (w : world) :
  let d := m_heartBeatDelayInMins w - 1 in
  let ticked :=
    set_heartBeatDelayInMins d
      (emit (LOG_INFO "Start presence writer timer trigger") w) in
  m_heartBeatDelayInMins (state_of (handle_timer_trigger th w)) = d ∧
  (d ≤ 0 →
     handle_timer_trigger th w = set_active_in_title th ticked ∧
     executor_entries (log (state_of (handle_timer_trigger th w)))
       = S (executor_entries (log w))) ∧
  (0 < d →
     handle_timer_trigger th w = returned ticked ∧
     executor_entries (log (state_of (handle_timer_trigger th w)))
       = executor_entries (log w)).
Proof.
  intros d ticked. split; [apply handle_timer_trigger_frame_any|].
  rewrite handle_timer_trigger_unfold. cbv zeta. fold d. fold ticked.
  assert (executor_entries (log ticked) = executor_entries (log w)) as Hquiet.
  { unfold executor_entries. simpl. rewrite filter_app, length_app. simpl. lia. }
  split; intros Hd.
  - rewrite (proj2 (Z.ltb_ge 0 d)) by done. split; [done|].
    by rewrite set_active_in_title_entries_any, Hquiet.
  - by rewrite (proj2 (Z.ltb_lt 0 d)).
Qed.

Lemma handle_timer_trigger_tick_witness :
  (handle_timer_trigger all_throw presence_writer =
     set_active_in_title all_throw
       (set_heartBeatDelayInMins (-1)
          (emit (LOG_INFO "Start presence writer timer trigger") presence_writer)) ∧
   executor_entries (log (state_of (handle_timer_trigger all_throw presence_writer)))
     = 1%nat) ∧
  (handle_timer_trigger all_throw (set_heartBeatDelayInMins 5 presence_writer) =
     returned
       (set_heartBeatDelayInMins 4
          (emit (LOG_INFO "Start presence writer timer trigger")
             (set_heartBeatDelayInMins 5 presence_writer))) ∧
   executor_entries
     (log (state_of (handle_timer_trigger all_throw
                       (set_heartBeatDelayInMins 5 presence_writer))))
     = 0%nat).
Proof.
  split.
  - apply (proj1 (proj2 (handle_timer_trigger_tick all_throw presence_writer))).
    simpl. lia.
  - apply (proj2 (proj2 (handle_timer_trigger_tick all_throw
                           (set_heartBeatDelayInMins 5 presence_writer)))).
    simpl. lia.
Defined.

(** ** Deregistration *)

Lemma stop_writer_delay (throws : bool) (id : string) (w : world) :
  m_writerInProgress w = true →
  m_heartBeatDelayInMins (stop_writer throws id w) =
    if decide (delete id (m_presenceServices w) = ∅) then 0
    else m_heartBeatDelayInMins w.
Proof.
  intros Hrun. unfold stop_writer. rewrite Hrun.
  destruct (m_presenceServices w !! id) eqn:Hfind.
  - unfold set_inactive_in_title. destruct throws; simpl; case_decide; done.
  - rewrite (delete_id _ _ Hfind). case_decide; done.
Qed.

Lemma stop_writer_log (throws : bool) (id : string) (w : world) :
  m_writerInProgress w = true →
  log (stop_writer throws id w) =
    match m_presenceServices w !! id with
    | Some svc => log (set_inactive_in_title throws svc w) ++ [timer_stop]
    | None => log w ++ [timer_stop]
    end.
Proof.
  intros Hrun. unfold stop_writer. rewrite Hrun.
  destruct (m_presenceServices w !! id) eqn:Hfind; by case_decide.
Qed.

(** The timer is stopped by every [stop_writer] that finds the writer
    running, whether or not the table became empty. *)
Lemma stop_writer_timer (throws : bool) (id : string) (w : world) :
  m_writerInProgress w = true →
  m_timerComplete (stop_writer throws id w) = true.
Proof. intros Hrun. unfold stop_writer. by rewrite Hrun. Qed.

Lemma set_inactive_in_title_log (throws : bool) (svc : presence_service_impl)
    (w : world) :
  log (set_inactive_in_title throws svc w) =
    log w ++ call_set_presence svc false ::
      (if throws then [LOG_ERROR "Set presence inactive fail"] else []).
Proof.
  unfold set_inactive_in_title. destruct throws; simpl; [|done].
  by rewrite <- app_assoc.
Qed.

(** C6: deregistering a registered user calls [set_presence(false)] on that
    user's service exactly once, while the entry is still in the table; an
    exception from the call is logged and dropped; the entry is removed
    either way. *)
Theorem stop_writer_sets_inactive (d : Z) (throws : bool) (id : string)
    (svc : presence_service_impl) (w : world) :
  reachable d w →
  m_presenceServices w !! id = Some svc →
  let attempt := set_inactive_in_title throws svc w in
  let w' := stop_writer throws id w in
  m_presenceServices attempt !! id = Some svc ∧
  log attempt =
    log w ++ call_set_presence svc false ::
      (if throws then [LOG_ERROR "Set presence inactive fail"] else []) ∧
  log w' = log attempt ++ [timer_stop] ∧
  filter is_presence_call (log w') =
    filter is_presence_call (log w) ++ [call_set_presence svc false] ∧
  m_presenceServices w' = delete id (m_presenceServices w) ∧
  m_presenceServices w' !! id = None.
Proof.
  intros Hreach Hfind attempt w'.
  assert (m_writerInProgress w = true) as Hrun.
  { apply (reachable_running_iff_registered d w Hreach).
    intros Hempty. by rewrite Hempty, lookup_empty in Hfind. }
  assert (log w' = log attempt ++ [timer_stop]) as Hlog.
  { unfold w'. rewrite stop_writer_log by done. by rewrite Hfind. }
  split; [by destruct throws|].
  split; [apply set_inactive_in_title_log|].
  split; [done|].
  split.
  - rewrite Hlog. unfold attempt. rewrite set_inactive_in_title_log.
    rewrite !filter_app. rewrite filter_cons_True by done.
    destruct throws; simpl; by rewrite app_nil_r.
  - unfold w'. rewrite stop_writer_services by done.
    split; [done | apply lookup_delete_eq].
Qed.

Lemma stop_writer_sets_inactive_witness :
  log (stop_writer true "alice" (start_writer alice presence_writer)) =
    log (set_inactive_in_title true alice (start_writer alice presence_writer))
      ++ [timer_stop] ∧
  m_presenceServices (stop_writer true "alice" (start_writer alice presence_writer))
    !! "alice" = None.
Proof.
  assert (reachable 5 (start_writer alice presence_writer)) as Hreach.
  { apply (reachable_step 5 (do_start_writer alice) presence_writer);
      [apply reachable_new | reflexivity]. }
  pose proof (stop_writer_sets_inactive 5 true "alice" alice
                (start_writer alice presence_writer) Hreach eq_refl)
    as (_ & _ & Hlog & _ & _ & Hgone).
  split; [exact Hlog | exact Hgone].
Defined.

(** ** The first tick *)

Lemma start_writer_calls_nothing (svc : presence_service_impl) (w : world) :
  filter is_presence_call (log (start_writer svc w)) =
    filter is_presence_call (log w).
Proof.
  unfold start_writer.
  destruct (m_writerInProgress w); simpl;
    destruct (m_presenceServices w !! _); simpl;
    rewrite ?filter_app; simpl; by rewrite ?app_nil_r.
Qed.

Lemma start_writer_first (svc : presence_service_impl) (w : world) :
  m_writerInProgress w = false →
  m_presenceServices w = ∅ →
  start_writer svc w =
    mk_world true (m_heartBeatDelayInMins w) (m_isCallInProgress w)
      {[ user_of svc := svc ]} false (tasks w) (continuations w)
      (log w ++ [LOG_INFO "Add new presence service into writer"; timer_start]).
Proof.
  intros Hrun Hempty. unfold start_writer, start_timer, user_of.
  rewrite Hrun. simpl. rewrite Hempty, lookup_empty. simpl.
  rewrite insert_empty. unfold emit, set_timerComplete. simpl.
  by rewrite <- app_assoc.
Qed.

(** C10: the countdown is zero in the constructed writer and after the
    deregistration that empties the table; so the first tick after the
    registration that starts the timer brings it to -1 and enters the
    executor (which, when no round is in flight and the call does not
    raise, issues the write for the user), while [start_writer] itself calls
    no presence service. *)
Theorem first_tick_enters_executor (d : Z) :
  m_heartBeatDelayInMins presence_writer = 0 ∧
  (∀ throws id w,
     m_writerInProgress w = true →
     m_presenceServices (stop_writer throws id w) = ∅ →
     m_heartBeatDelayInMins (stop_writer throws id w) = 0 ∧
     m_writerInProgress (stop_writer throws id w) = false) ∧
  (∀ th svc w,
     m_writerInProgress w = false →
     m_presenceServices w = ∅ →
     m_heartBeatDelayInMins w = 0 →
     let w1 := start_writer svc w in
     let tick := handle_timer_trigger th w1 in
     m_timerComplete w1 = false ∧
     m_heartBeatDelayInMins (state_of tick) = -1 ∧
     executor_entries (log (state_of tick)) = S (executor_entries (log w1)) ∧
     (m_isCallInProgress w = false → th svc = false →
        tick = returned (state_of tick) ∧
        step d do_timer_elapsed w1 = Some (state_of tick) ∧
        log (state_of tick) =
          log w1 ++ [LOG_INFO "Start presence writer timer trigger";
                     LOG_INFO "Start presence writing.";
                     call_set_presence_helper svc true (length (tasks w))])) ∧
  (∀ svc w,
     filter is_presence_call (log (start_writer svc w)) =
       filter is_presence_call (log w)).
Proof.
  split; [done|]. split; [|split; [|apply start_writer_calls_nothing]].
  - intros throws id w Hrun Hempty.
    rewrite stop_writer_services in Hempty by done.
    rewrite stop_writer_delay, stop_writer_running by done.
    rewrite decide_True by done.
    by rewrite bool_decide_eq_false_2 by auto.
  - intros th svc w Hrun Hempty Hzero w1 tick.
    pose proof (start_writer_first svc w Hrun Hempty) as Hw1. fold w1 in Hw1.
    assert (m_heartBeatDelayInMins w1 - 1 ≤ 0) as Hdue
      by (rewrite Hw1; simpl; lia).
    destruct (handle_timer_trigger_frame_any th w1) as (_ & Hdelay & _).
    split; [by rewrite Hw1|]. split; [unfold tick; rewrite Hdelay, Hw1; simpl; lia|].
    assert (tick = set_active_in_title th
                     (set_heartBeatDelayInMins (m_heartBeatDelayInMins w1 - 1)
                        (emit (LOG_INFO "Start presence writer timer trigger") w1)))
      as Htick.
    { unfold tick. rewrite handle_timer_trigger_unfold. cbv zeta.
      by rewrite (proj2 (Z.ltb_ge 0 _) Hdue). }
    split.
    { rewrite Htick, set_active_in_title_entries_any.
      unfold executor_entries. simpl. rewrite filter_app, length_app. simpl. lia. }
    intros Hflag Hsvc.
    assert (tick = returned (handle_timer_trigger_done w1)) as Hret.
    { rewrite Htick. rewrite set_active_in_title_safe.
      - f_equal. symmetry.
        apply (proj1 (handle_timer_trigger_cases w1) Hdue).
      - unfold snapshot. rewrite Hw1. simpl. rewrite map_to_list_singleton.
        by repeat constructor. }
    rewrite Hret. simpl. split; [done|]. split.
    { rewrite handle_timer_trigger_no_throw. by rewrite Hw1. }
    rewrite (proj1 (handle_timer_trigger_cases w1) Hdue).
    rewrite set_active_in_title_begin by (by rewrite Hw1).
    rewrite Hw1. simpl. unfold snapshot. simpl.
    rewrite map_to_list_singleton. simpl.
    rewrite <- !app_assoc. simpl. by rewrite Nat.add_0_r.
Qed.

Lemma first_tick_enters_executor_witness :
  (m_heartBeatDelayInMins (stop_writer false "alice" (start_writer alice presence_writer)) = 0 ∧
   m_writerInProgress (stop_writer false "alice" (start_writer alice presence_writer)) = false) ∧
  m_heartBeatDelayInMins
    (state_of (handle_timer_trigger no_throw (start_writer alice presence_writer))) = -1 ∧
  log (state_of (handle_timer_trigger no_throw (start_writer alice presence_writer))) =
    [LOG_INFO "Add new presence service into writer"; timer_start;
     LOG_INFO "Start presence writer timer trigger";
     LOG_INFO "Start presence writing.";
     call_set_presence_helper alice true 0].
Proof.
  destruct (first_tick_enters_executor 5) as (_ & Hstop & Hfirst & _).
  split.
  - apply (Hstop false "alice" (start_writer alice presence_writer));
      reflexivity.
  - destruct (Hfirst no_throw alice presence_writer eq_refl eq_refl eq_refl)
      as (_ & Hdelay & _ & Hlog).
    destruct (Hlog eq_refl eq_refl) as (_ & _ & Hlog').
    split; [exact Hdelay | exact Hlog'].
Defined.

(** ** Stopping the timer *)

(** C2: the code at the run "register alice, register bob, deregister
    alice": the lifecycle flag stays true and bob stays registered, but the
    timer has been stopped, no tick is delivered any more, and a later
    registration does not start it again; deregistering bob afterwards
    stops the timer a second time. *)
Theorem stop_writer_not_last_stops_timer :
  let w2 := start_writer bob (start_writer alice presence_writer) in
  let w3 := stop_writer false "alice" w2 in
  let w4 := stop_writer false "bob" w3 in
  (m_writerInProgress w3 = true ∧
   m_presenceServices w3 !! "bob" = Some bob ∧
   m_timerComplete w2 = false ∧
   m_timerComplete w3 = true ∧
   step 5 do_timer_elapsed w3 = None ∧
   m_timerComplete (start_writer carol w3) = true) ∧
  (timer_starts (log w3) = 1%nat ∧ timer_stops (log w3) = 1%nat) ∧
  (m_writerInProgress w4 = false ∧
   timer_starts (log w4) = 1%nat ∧ timer_stops (log w4) = 2%nat).
Proof. vm_compute. repeat split; reflexivity. Qed.

(** ** What the calls leave alone *)

Lemma start_writer_async (svc : presence_service_impl) (w : world) :
  m_isCallInProgress (start_writer svc w) = m_isCallInProgress w ∧
  tasks (start_writer svc w) = tasks w ∧
  continuations (start_writer svc w) = continuations w.
Proof.
  unfold start_writer.
  destruct (m_writerInProgress w); simpl;
    destruct (m_presenceServices w !! _); simpl; done.
Qed.

Lemma stop_writer_async (throws : bool) (id : string) (w : world) :
  m_isCallInProgress (stop_writer throws id w) = m_isCallInProgress w ∧
  tasks (stop_writer throws id w) = tasks w ∧
  continuations (stop_writer throws id w) = continuations w.
Proof.
  unfold stop_writer. destruct (m_writerInProgress w); [|done].
  destruct (m_presenceServices w !! id); simpl.
  - unfold set_inactive_in_title. destruct throws; simpl; by case_decide.
  - by case_decide.
Qed.

Lemma Forall_imap {A B} (P : B → Prop) (l : list A) :
  ∀ f : nat → A → B,
    (∀ k x, l !! k = Some x → P (f k x)) → Forall P (imap f l).
Proof.
  induction l as [|x l IH]; intros f Hf; simpl; constructor.
  - by apply Hf.
  - apply IH. intros k y Hk. by apply (Hf (S k)).
Qed.

Lemma set_active_in_title_async (w : world) :
  ∃ new,
    tasks (set_active_in_title_done w) = tasks w ++ replicate (length new) None ∧
    continuations (set_active_in_title_done w) = continuations w ++ new ∧
    Forall (fresh_continuation (length (tasks w) + length new)) new ∧
    (m_isCallInProgress w = true → new = []) ∧
    (m_isCallInProgress w = false → length new = length (snapshot w)).
Proof.
  destruct (m_isCallInProgress w) eqn:Hflag.
  - exists []. rewrite set_active_in_title_skip by done. simpl.
    by rewrite !app_nil_r.
  - exists (imap (λ k _, mk_continuation (seq (length (tasks w)) (S k)) attached)
              (snapshot w)).
    rewrite set_active_in_title_begin by done. simpl.
    rewrite length_imap. repeat split; [|done].
    apply Forall_imap. intros k x Hk.
    apply lookup_lt_Some in Hk.
    split; [done|]. split; [done|]. cbn [awaited].
    apply Forall_forall. intros i Hi.
    change (i ∈ seq (length (tasks w)) (S k)) in Hi.
    apply elem_of_seq in Hi. lia.
Qed.

Lemma handle_timer_trigger_async (w : world) :
  ∃ new,
    tasks (handle_timer_trigger_done w) = tasks w ++ replicate (length new) None ∧
    continuations (handle_timer_trigger_done w) = continuations w ++ new ∧
    Forall (fresh_continuation (length (tasks w) + length new)) new ∧
    (m_isCallInProgress (handle_timer_trigger_done w) = true →
       m_isCallInProgress w = true ∨ length new = length (snapshot w)) ∧
    (m_isCallInProgress (handle_timer_trigger_done w) = false →
       m_isCallInProgress w = false).
Proof.
  destruct (handle_timer_trigger_cases w) as [Hdue Hwait].
  destruct (Z.le_gt_cases (m_heartBeatDelayInMins w - 1) 0) as [Hle|Hgt].
  - rewrite (Hdue Hle).
    set (ticked := set_heartBeatDelayInMins _ _).
    destruct (set_active_in_title_async ticked)
      as (new & Htasks & Hconts & Hfresh & Hskip & Hbegin).
    exists new. split; [done|]. split; [done|]. split; [done|].
    destruct (m_isCallInProgress w) eqn:Hflag.
    + split; [by left|]. rewrite set_active_in_title_skip by done.
      subst ticked. simpl. by rewrite Hflag.
    + split; [intros _; right; by apply Hbegin | done].
  - rewrite (Hwait Hgt). exists []. simpl.
    rewrite !app_nil_r. repeat split; [by constructor| |done].
    intros ->. by left.
Qed.

(** ** Invariants of the running system *)

Lemma set_stage_well_formed (cid : nat) (st : continuation_stage) (w : world) :
  continuations_well_formed w → continuations_well_formed (set_stage cid st w).
Proof.
  unfold continuations_well_formed. simpl. intros Hwf.
  apply Forall_alter; [done|]. by intros c _ Hc.
Qed.

Lemma step_writer_inv (d : Z) (l : label) (w w' : world) :
  step d l w = Some w' → writer_inv w → writer_inv w'.
Proof.
  intros Hstep (Hrun & Htimer & Hwf & Hflag).
  split; [by eapply step_running_iff_registered|].
  unfold timer_has_users, continuations_well_formed, flag_has_handler in *.
  step_cases Hstep.
  - destruct (start_writer_async svc w) as (-> & -> & ->).
    split; [|done]. intros _ Hempty.
    destruct (start_writer_registered svc w) as [x Hx].
    by rewrite Hempty, lookup_empty in Hx.
  - destruct (stop_writer_async throws id w) as (-> & -> & ->).
    split; [|done]. destruct (m_writerInProgress w) eqn:Hrunning.
    + by rewrite stop_writer_timer.
    + by rewrite stop_writer_idle.
  - destruct (handle_timer_trigger_frame w) as (_ & _ & -> & ->).
    split; [done|].
    destruct (handle_timer_trigger_async w)
      as (new & -> & -> & Hfresh & Hset & _).
    split.
    + rewrite length_app, length_replicate. apply Forall_app. split.
      * eapply Forall_impl; [exact Hwf|]. intros c [Hne Hbound].
        split; [done|]. eapply Forall_impl; [exact Hbound|]. simpl. lia.
      * eapply Forall_impl; [exact Hfresh|]. by intros c (_ & Hne & Hbound).
    + intros Hnow. destruct (Hset Hnow) as [Hbefore|Hlen].
      * destruct (Hflag Hbefore) as (cid & c & Hc & Hst).
        exists cid, c. split; [|done].
        rewrite lookup_app_l; [done|]. by eapply lookup_lt_Some.
      * destruct new as [|c new].
        { exfalso. apply (Htimer ltac:(done)).
          apply map_to_list_empty_iff. by apply length_zero_iff_nil. }
        exists (length (continuations w)), c. split.
        { rewrite lookup_app_r by lia. by rewrite Nat.sub_diag. }
        by apply Forall_cons_1 in Hfresh as [(Hst & _) _].
  - simpl. split; [done|]. split; [|done]. by rewrite length_insert.
  - split; [done|]. split; [|done].
    by apply (set_stage_well_formed cid stored (continuation_store w)).
  - simpl. rewrite Ek_timer, Ek_table, Ek_tasks, Ek_conts, Ek_flag.
    split; [done|]. split.
    + apply Forall_alter; [done|]. by intros x _ Hx.
    + intros Hnow. destruct (Hflag Hnow) as (cid' & c' & Hc' & Hst').
      exists cid', c'. split; [|done].
      rewrite list_lookup_alter_ne; [done|].
      intros ->. congruence.
Qed.

Lemma reachable_writer_inv (d : Z) (w : world) : reachable d w → writer_inv w.
Proof.
  induction 1 as [|l w w' _ IH Hstep]; [|by eapply step_writer_inv].
  repeat split; try done. by constructor.
Qed.

Lemma run_complete_tasks (d : Z) (answer : nat → xbox_live_result)
    (ids : list nat) :
  ∀ w, NoDup ids → (∀ i, i ∈ ids → tasks w !! i = Some None) →
    ∃ w', run d ((λ i, do_task_complete i (answer i)) <$> ids) w = Some w' ∧
      m_isCallInProgress w' = m_isCallInProgress w ∧
      continuations w' = continuations w ∧
      length (tasks w') = length (tasks w) ∧
      (∀ i, i ∈ ids → tasks w' !! i = Some (Some (answer i))) ∧
      (∀ i, i ∉ ids → tasks w' !! i = tasks w !! i).
Proof.
  induction ids as [|i ids IH]; intros w Hnodup Hrunning.
  - exists w. repeat split; try done. intros i Hi. by apply elem_of_nil in Hi.
  - apply NoDup_cons in Hnodup as [Hfresh Hnodup].
    assert (tasks w !! i = Some None) as Hi by (apply Hrunning; left).
    set (w1 := set_tasks (<[i := Some (answer i)]> (tasks w)) w).
    destruct (IH w1 Hnodup) as (w' & Hrun & Hflag & Hconts & Hlen & Hin & Hout).
    { intros j Hj. simpl. rewrite list_lookup_insert_ne by (intros ->; done).
      apply Hrunning. by right. }
    exists w'. simpl. rewrite Hi. simpl. fold w1.
    split; [done|]. split; [done|]. split; [done|].
    split; [by rewrite Hlen; simpl; rewrite length_insert|]. split.
    + intros j Hj. apply elem_of_cons in Hj as [->|Hj]; [|by apply Hin].
      rewrite Hout by done. simpl. apply list_lookup_insert_eq.
      by eapply lookup_lt_Some.
    + intros j Hj. apply not_elem_of_cons in Hj as [Hne Hj].
      rewrite Hout by done. simpl. by rewrite list_lookup_insert_ne.
Qed.

Lemma run_running_tasks (d : Z) (answer : nat → xbox_live_result) (w : world) :
  ∃ w', run d ((λ i, do_task_complete i (answer i)) <$> running_tasks w) w
          = Some w' ∧
    m_isCallInProgress w' = m_isCallInProgress w ∧
    continuations w' = continuations w ∧
    length (tasks w') = length (tasks w) ∧
    all_resolved w'.
Proof.
  destruct (run_complete_tasks d answer (running_tasks w) w)
    as (w' & Hrun & Hflag & Hconts & Hlen & Hin & Hout).
  { apply NoDup_filter, NoDup_seq. }
  { intros i Hi. by apply list_elem_of_filter in Hi as [Hi _]. }
  exists w'. repeat split; try done.
  intros i Hi. rewrite Hlen in Hi.
  destruct (decide (i ∈ running_tasks w)) as [Hrunning|Hdone].
  - exists (answer i). by apply Hin.
  - rewrite Hout by done.
    destruct (lookup_lt_is_Some_2 (tasks w) i Hi) as [[r|] Hr]; [by exists r|].
    exfalso. apply Hdone. apply list_elem_of_filter. split; [done|].
    apply elem_of_seq. lia.
Qed.

Lemma when_all_resolved (w : world) (ids : list nat) :
  all_resolved w → ids ≠ [] →
  Forall (λ i, (i < length (tasks w))%nat) ids →
  ∃ results, when_all (tasks w) ids = Some results ∧ results ≠ [].
Proof.
  intros Hall Hne Hbound.
  destruct (mapM_is_Some_2 (λ i, mjoin (tasks w !! i)) ids) as [results Hres].
  { eapply Forall_impl; [exact Hbound|]. intros i Hi. simpl.
    destruct (Hall i Hi) as [r ->]. by exists r. }
  exists results. split; [done|]. intros ->.
  apply length_mapM in Hres. by destruct ids.
Qed.

Lemma step_continuation_store_ready (d : Z) (cid : nat) (c : continuation)
    (results : list xbox_live_result) (w : world) :
  continuations w !! cid = Some c → stage c = attached →
  when_all (tasks w) (awaited c) = Some results →
  step d (do_continuation_store cid) w =
    Some (set_stage cid stored (continuation_store w)).
Proof.
  intros Hc Hst Hall. simpl. rewrite Hc. simpl. rewrite Hall. simpl.
  by rewrite decide_True.
Qed.

Lemma step_continuation_update_ready (d : Z) (cid : nat) (c : continuation)
    (results : list xbox_live_result) (w : world) :
  continuations w !! cid = Some c → stage c = stored →
  when_all (tasks w) (awaited c) = Some results →
  step d (do_continuation_update cid) w =
    set_stage cid finished <$> continuation_update d results w.
Proof.
  intros Hc Hst Hall. simpl. rewrite Hc. simpl. rewrite Hall. simpl.
  by rewrite decide_True.
Qed.

Lemma alter_twice {A} (f g : A → A) (l : list A) :
  ∀ i, alter f i (alter g i l) = alter (f ∘ g) i l.
Proof.
  induction l as [|x l IH]; intros [|i]; simpl; try done.
  f_equal. apply IH.
Qed.

Lemma alter_fixed {A} (f : A → A) (l : list A) :
  ∀ i x, l !! i = Some x → f x = x → alter f i l = l.
Proof.
  induction l as [|y l IH]; intros [|i] x Hx Hf; simpl in *; try done.
  - simplify_eq. by rewrite Hf.
  - f_equal. by eapply IH.
Qed.

Lemma run_update (d : Z) (cid : nat) (c : continuation) (w : world) :
  continuations w !! cid = Some c → stage c = stored →
  all_resolved w → continuations_well_formed w →
  ∃ w', run d [do_continuation_update cid] w = Some w' ∧
    continuations w' = alter finish cid (continuations w) ∧
    tasks w' = tasks w ∧
    m_isCallInProgress w' = m_isCallInProgress w.
Proof.
  intros Hc Hst Hres Hwf.
  destruct (Forall_lookup_1 _ _ _ _ Hwf Hc) as [Hne Hbound].
  destruct (when_all_resolved w (awaited c) Hres Hne Hbound)
    as (results & Hall & Hsome).
  destruct (continuation_update_total d results w Hsome) as [w1 Hupd].
  exists (set_stage cid finished w1).
  change (run d [do_continuation_update cid] w)
    with (step d (do_continuation_update cid) w ≫= run d []).
  rewrite (step_continuation_update_ready d cid c results w Hc Hst Hall).
  rewrite Hupd. simpl. split; [done|].
  apply continuation_update_spec in Hupd
    as (_ & _ & _ & _ & Ek_flag & _ & _ & Ek_tasks & Ek_conts).
  by rewrite Ek_conts.
Qed.

Lemma run_remaining_steps (d : Z) (cid : nat) (c : continuation) (w : world) :
  continuations w !! cid = Some c →
  all_resolved w → continuations_well_formed w →
  ∃ w', run d (remaining_steps cid c) w = Some w' ∧
    continuations w' = alter finish cid (continuations w) ∧
    tasks w' = tasks w ∧
    (m_isCallInProgress w' = true →
       m_isCallInProgress w = true ∧ stage c ≠ attached).
Proof.
  intros Hc Hres Hwf. unfold remaining_steps.
  destruct (stage c) eqn:Hst.
  - destruct (Forall_lookup_1 _ _ _ _ Hwf Hc) as [Hne Hbound].
    destruct (when_all_resolved w (awaited c) Hres Hne Hbound)
      as (results & Hall & Hsome).
    set (w1 := set_stage cid stored (continuation_store w)).
    destruct (run_update d cid (mk_continuation (awaited c) stored) w1)
      as (w' & Hrun & Hconts & Htasks & Hflag).
    { unfold w1. simpl. rewrite list_lookup_alter_eq. by rewrite Hc. }
    { done. }
    { done. }
    { by apply (set_stage_well_formed cid stored (continuation_store w)). }
    exists w'. change (run d [do_continuation_store cid; do_continuation_update cid] w)
      with (step d (do_continuation_store cid) w ≫= run d [do_continuation_update cid]).
    rewrite (step_continuation_store_ready d cid c results w Hc Hst Hall).
    split; [done|]. split; [|split; [done|]].
    + rewrite Hconts. unfold w1. simpl.
      by rewrite alter_twice.
    + rewrite Hflag. unfold w1. simpl. done.
  - destruct (run_update d cid c w Hc Hst Hres Hwf)
      as (w' & Hrun & Hconts & Htasks & Hflag).
    exists w'. split; [done|]. split; [done|]. split; [done|].
    rewrite Hflag. done.
  - exists w. split; [done|]. split; [|done].
    symmetry. apply alter_fixed with (x := c); [done|].
    destruct c. simpl in Hst. by rewrite Hst.
Qed.

Lemma run_all_remaining (d : Z) (post : list continuation) :
  ∀ pre w,
    continuations w = pre ++ post →
    all_resolved w → continuations_well_formed w →
    ∃ w', run d (concat (imap (λ k, remaining_steps (length pre + k)) post)) w
            = Some w' ∧
      continuations w' = pre ++ (finish <$> post) ∧
      tasks w' = tasks w ∧
      (m_isCallInProgress w' = true →
         m_isCallInProgress w = true ∧ Forall (λ c, stage c ≠ attached) post).
Proof.
  induction post as [|c post IH]; intros pre w Hconts Hres Hwf.
  - exists w. simpl. rewrite app_nil_r in *. repeat split; try done.
  - assert (continuations w !! length pre = Some c) as Hc
      by (rewrite Hconts; apply list_lookup_middle; done).
    destruct (run_remaining_steps d (length pre) c w Hc Hres Hwf)
      as (w1 & Hrun1 & Hconts1 & Htasks1 & Hflag1).
    assert (continuations w1 = (pre ++ [finish c]) ++ post) as Hsplit.
    { rewrite Hconts1, Hconts.
      replace (length pre) with (length pre + 0)%nat at 1 by lia.
      rewrite alter_app_r. simpl. by rewrite <- app_assoc. }
    destruct (IH (pre ++ [finish c]) w1 Hsplit) as (w' & Hrun & Hconts' & Htasks' & Hflag').
    { unfold all_resolved. by rewrite Htasks1. }
    { unfold continuations_well_formed. rewrite Hconts1, Htasks1.
      apply Forall_alter; [done|]. by intros x _ Hx. }
    exists w'. rewrite imap_cons. simpl concat. rewrite run_app.
    rewrite Nat.add_0_r, Hrun1. simpl. split.
    + rewrite <- Hrun. do 2 f_equal. apply imap_ext. intros k x _. simpl.
      f_equal. rewrite length_app. simpl. lia.
    + split; [by rewrite Hconts', <- app_assoc|].
      split; [by rewrite Htasks'|].
      intros Hset. destruct (Hflag' Hset) as [Hset1 Hpost].
      destruct (Hflag1 Hset1) as [Hset0 Hc0]. split; [done|]. by constructor.
Qed.

(** Error results never keep the flag set: from every reachable state,
    whatever results the outstanding writes come back with, the outstanding
    work can be run to its end, and at that end the flag is false and every
    continuation has run.  (Reachable states come from runs in which the
    calls return.) *)
Lemma flag_released_when_calls_return (d : Z) (answer : nat → xbox_live_result)
    (w : world) :
  reachable d w →
  ∃ w', run d (drain answer w) w = Some w' ∧
    m_isCallInProgress w' = false ∧
    Forall (λ c, stage c = finished) (continuations w') ∧
    all_resolved w'.
Proof.
  intros Hreach.
  destruct (reachable_writer_inv d w Hreach) as (_ & _ & Hwf & Hflag).
  destruct (run_running_tasks d answer w)
    as (w1 & Hrun1 & Hflag1 & Hconts1 & Hlen1 & Hres1).
  destruct (run_all_remaining d (continuations w1) [] w1)
    as (w' & Hrun & Hconts & Htasks & Hflag'); [done|done| |].
  { unfold continuations_well_formed. by rewrite Hconts1, Hlen1. }
  exists w'. unfold drain. rewrite run_app, Hrun1. simpl.
  rewrite <- Hconts1. split; [exact Hrun|]. split; [|split].
  - destruct (m_isCallInProgress w') eqn:Hset; [|done]. exfalso.
    destruct (Hflag' eq_refl) as [Hset1 Hnone].
    rewrite Hflag1 in Hset1. destruct (Hflag Hset1) as (cid & c & Hc & Hst).
    rewrite <- Hconts1 in Hc.
    by apply (Forall_lookup_1 _ _ _ _ Hnone Hc).
  - rewrite Hconts. simpl. apply Forall_fmap. by apply Forall_true.
  - unfold all_resolved. by rewrite Htasks.
Qed.

(** ** Single flight *)

Lemma rounds_begun_emit (e : event) (w : world) :
  rounds_begun (log (emit e w)) =
    (rounds_begun (log w) +
       if decide (e = LOG_INFO "Start presence writing.") then 1 else 0)%nat.
Proof.
  unfold rounds_begun. simpl. rewrite filter_app, length_app. f_equal.
  case_decide.
  - by rewrite filter_cons_True.
  - by rewrite filter_cons_False.
Qed.

Lemma set_active_in_title_begun (w : world) :
  m_isCallInProgress w = false →
  m_isCallInProgress (set_active_in_title_done w) = true ∧
  rounds_begun (log (set_active_in_title_done w)) = S (rounds_begun (log w)).
Proof.
  intros Hflag. rewrite set_active_in_title_begin by done. split; [done|].
  unfold rounds_begun. simpl. rewrite !filter_app, !length_app. simpl.
  rewrite filter_imap_nil; [simpl; lia|]. by intros k x.
Qed.

Lemma emit_quiet (e : event) (w : world) :
  e ≠ LOG_INFO "Start presence writing." → ¬ is_presence_call e →
  rounds_begun (log (emit e w)) = rounds_begun (log w) ∧
  filter is_presence_call (log (emit e w)) = filter is_presence_call (log w).
Proof.
  intros Hbegin Hcall. rewrite rounds_begun_emit, decide_False by done.
  split; [lia|]. simpl. rewrite filter_app, filter_cons_False by done.
  apply app_nil_r.
Qed.

Lemma set_active_in_title_dropped (w : world) :
  m_isCallInProgress w = true →
  m_isCallInProgress (set_active_in_title_done w) = true ∧
  rounds_begun (log (set_active_in_title_done w)) = rounds_begun (log w) ∧
  tasks (set_active_in_title_done w) = tasks w ∧
  continuations (set_active_in_title_done w) = continuations w ∧
  filter is_presence_call (log (set_active_in_title_done w))
    = filter is_presence_call (log w).
Proof.
  intros Hflag. rewrite set_active_in_title_skip by done.
  destruct (emit_quiet (LOG_INFO "Writting in progress, skip presence writing.") w)
    as [-> ->]; [done | by intros [] | done].
Qed.

(** The executor, however it ends, when it finds the flag clear. *)
Lemma set_active_in_title_begins_any (th : presence_service_impl → bool)
    (w : world) :
  m_isCallInProgress w = false →
  m_isCallInProgress (state_of (set_active_in_title th w)) = true ∧
  rounds_begun (log (state_of (set_active_in_title th w)))
    = S (rounds_begun (log w)).
Proof.
  intros Hflag.
  destruct (set_active_in_title_cases th w)
    as [Heq | (_ & pre & p & post & _ & _ & Heq)]; rewrite Heq; simpl.
  - by apply set_active_in_title_begun.
  - split; [done|]. unfold rounds_begun.
    rewrite !filter_app, !length_app. simpl.
    rewrite filter_imap_nil; [simpl; lia|]. by intros k x.
Qed.

Lemma handle_timer_trigger_dropped (w : world) :
  m_isCallInProgress w = true →
  m_isCallInProgress (handle_timer_trigger_done w) = true ∧
  rounds_begun (log (handle_timer_trigger_done w)) = rounds_begun (log w) ∧
  tasks (handle_timer_trigger_done w) = tasks w ∧
  continuations (handle_timer_trigger_done w) = continuations w ∧
  filter is_presence_call (log (handle_timer_trigger_done w))
    = filter is_presence_call (log w).
Proof.
  intros Hflag.
  destruct (emit_quiet (LOG_INFO "Start presence writer timer trigger") w)
    as [Hrounds Hcalls]; [done | by intros [] |].
  destruct (handle_timer_trigger_cases w) as [Hdue Hwait].
  destruct (Z.le_gt_cases (m_heartBeatDelayInMins w - 1) 0) as [Hle|Hgt].
  - rewrite (Hdue Hle).
    destruct (set_active_in_title_dropped
                (set_heartBeatDelayInMins (m_heartBeatDelayInMins w - 1)
                   (emit (LOG_INFO "Start presence writer timer trigger") w)) Hflag)
      as (-> & -> & -> & -> & ->).
    done.
  - by rewrite (Hwait Hgt).
Qed.

(** A trigger that finds the flag set returns, and leaves no trace but
    log lines. *)
Lemma fire_dropped (th : presence_service_impl → bool) (t : trigger) (w : world) :
  m_isCallInProgress w = true →
  ∃ w', fire th w t = returned w' ∧
    m_isCallInProgress w' = true ∧
    rounds_begun (log w') = rounds_begun (log w) ∧
    tasks w' = tasks w ∧
    continuations w' = continuations w ∧
    filter is_presence_call (log w') = filter is_presence_call (log w).
Proof.
  intros Hflag. destruct t; simpl.
  - exists (handle_timer_trigger_done w).
    split; [|by apply handle_timer_trigger_dropped].
    rewrite handle_timer_trigger_unfold. cbv zeta.
    destruct (handle_timer_trigger_cases w) as [Hdue Hwait].
    destruct (Z.le_gt_cases (m_heartBeatDelayInMins w - 1) 0) as [Hle|Hgt].
    + rewrite (proj2 (Z.ltb_ge 0 _) Hle), (Hdue Hle).
      rewrite set_active_in_title_skips, set_active_in_title_skip; done.
    + by rewrite (proj2 (Z.ltb_lt 0 _) Hgt), (Hwait Hgt).
  - exists (set_active_in_title_done w).
    split; [|by apply set_active_in_title_dropped].
    rewrite set_active_in_title_skips, set_active_in_title_skip; done.
Qed.

Lemma fire_begins_at_most_one (th : presence_service_impl → bool) (t : trigger)
    (w : world) :
  m_isCallInProgress w = false →
  (fire th w t = returned (state_of (fire th w t)) ∧
   m_isCallInProgress (state_of (fire th w t)) = false ∧
   rounds_begun (log (state_of (fire th w t))) = rounds_begun (log w)) ∨
  (m_isCallInProgress (state_of (fire th w t)) = true ∧
   rounds_begun (log (state_of (fire th w t))) = S (rounds_begun (log w))).
Proof.
  intros Hflag. destruct t; simpl;
    [|right; by apply set_active_in_title_begins_any].
  destruct (emit_quiet (LOG_INFO "Start presence writer timer trigger") w)
    as [Hrounds _]; [done | by intros [] |].
  rewrite handle_timer_trigger_unfold. cbv zeta.
  destruct (Z.le_gt_cases (m_heartBeatDelayInMins w - 1) 0) as [Hle|Hgt].
  - right. rewrite (proj2 (Z.ltb_ge 0 _) Hle).
    destruct (set_active_in_title_begins_any th
                (set_heartBeatDelayInMins (m_heartBeatDelayInMins w - 1)
                   (emit (LOG_INFO "Start presence writer timer trigger") w)) Hflag)
      as [-> ->].
    split; [done|]. f_equal. exact Hrounds.
  - left. rewrite (proj2 (Z.ltb_lt 0 _) Hgt). simpl.
    split; [done|]. split; [done | exact Hrounds].
Qed.

Lemma fire_all_rounds (th : presence_service_impl → bool) (ts : list trigger) :
  ∀ w,
    (rounds_begun (log (state_of (fire_all th ts w)))
       ≤ S (rounds_begun (log w)))%nat ∧
    (m_isCallInProgress w = true →
       ∃ w', fire_all th ts w = returned w' ∧
         m_isCallInProgress w' = true ∧
         rounds_begun (log w') = rounds_begun (log w) ∧
         tasks w' = tasks w ∧
         continuations w' = continuations w ∧
         filter is_presence_call (log w') = filter is_presence_call (log w)).
Proof.
  induction ts as [|t ts IH]; intros w.
  - simpl. split; [lia|]. intros Hflag. by exists w.
  - assert (m_isCallInProgress w = true →
            ∃ w', fire_all th (t :: ts) w = returned w' ∧
              m_isCallInProgress w' = true ∧
              rounds_begun (log w') = rounds_begun (log w) ∧
              tasks w' = tasks w ∧
              continuations w' = continuations w ∧
              filter is_presence_call (log w') = filter is_presence_call (log w))
      as Hdrop.
    { intros Hflag.
      destruct (fire_dropped th t w Hflag) as (w1 & Hfire & H1 & H2 & H3 & H4 & H5).
      destruct (IH w1) as [_ Hheld].
      destruct (Hheld H1) as (w' & Hall & G1 & G2 & G3 & G4 & G5).
      exists w'. simpl. rewrite Hfire.
      split; [done|]. split; [done|]. by rewrite G2, G3, G4, G5. }
    split; [|done].
    destruct (m_isCallInProgress w) eqn:Hflag.
    + destruct (Hdrop eq_refl) as (w' & Hall & _ & Hsame & _).
      rewrite Hall. simpl. lia.
    + destruct (fire_begins_at_most_one th t w Hflag)
        as [(Hret & H1 & H2)|[H1 H2]].
      * simpl. rewrite Hret. destruct (IH (state_of (fire th w t))) as [Hle _].
        lia.
      * simpl. destruct (fire th w t) as [w1|w1] eqn:Hfire; simpl in *; [|lia].
        destruct (IH w1) as [_ Hheld].
        destruct (Hheld H1) as (w' & Hall & _ & Hsame & _).
        rewrite Hall. simpl. lia.
Qed.

Lemma rounds_begun_app (l1 l2 : list event) :
  rounds_begun (l1 ++ l2) = (rounds_begun l1 + rounds_begun l2)%nat.
Proof. unfold rounds_begun. by rewrite filter_app, length_app. Qed.

Lemma start_writer_rounds (svc : presence_service_impl) (w : world) :
  rounds_begun (log (start_writer svc w)) = rounds_begun (log w).
Proof.
  unfold start_writer.
  destruct (m_writerInProgress w); simpl;
    destruct (m_presenceServices w !! _); simpl;
    rewrite <- ?app_assoc, rounds_begun_app;
    match goal with |- (_ + ?n)%nat = _ => change n with 0%nat end; lia.
Qed.

Lemma stop_writer_rounds (throws : bool) (id : string) (w : world) :
  rounds_begun (log (stop_writer throws id w)) = rounds_begun (log w).
Proof.
  destruct (m_writerInProgress w) eqn:Hrun; [|by rewrite stop_writer_idle].
  rewrite stop_writer_log by done.
  destruct (m_presenceServices w !! id) as [svc|].
  - rewrite set_inactive_in_title_log, <- app_assoc, rounds_begun_app.
    destruct throws;
      match goal with |- (_ + ?n)%nat = _ => change n with 0%nat end; lia.
  - rewrite rounds_begun_app.
    match goal with |- (_ + ?n)%nat = _ => change n with 0%nat end; lia.
Qed.

Lemma continuation_update_rounds (d : Z) (results : list xbox_live_result)
    (w w' : world) :
  continuation_update d results w = Some w' →
  rounds_begun (log w') = rounds_begun (log w).
Proof.
  unfold continuation_update. intros Hupd.
  destruct (last results) as [heartBeat|]; [|done]. simpl in Hupd.
  case_decide; simplify_eq; [done|].
  simpl. rewrite rounds_begun_app.
  match goal with |- (_ + ?n)%nat = _ => change n with 0%nat end; lia.
Qed.

(** A step that begins a round finds the flag clear and leaves it set. *)
Lemma step_begins_round (d : Z) (l : label) (w w' : world) :
  step d l w = Some w' →
  rounds_begun (log w') ≠ rounds_begun (log w) →
  m_isCallInProgress w = false ∧ m_isCallInProgress w' = true.
Proof.
  intros Hstep Hbegun. step_cases Hstep.
  - by rewrite start_writer_rounds in Hbegun.
  - by rewrite stop_writer_rounds in Hbegun.
  - destruct (m_isCallInProgress w) eqn:Hflag.
    + by destruct (handle_timer_trigger_dropped w Hflag) as (_ & Hsame & _).
    + destruct (fire_begins_at_most_one no_throw timer_trigger w Hflag)
        as [(_ & _ & Hsame)|[Hset _]]; done.
  - done.
  - exfalso. apply Hbegun. simpl. rewrite rounds_begun_app.
    match goal with |- (_ + ?n)%nat = _ => change n with 0%nat end; lia.
  - exfalso. apply Hbegun. simpl. by eapply continuation_update_rounds.
Qed.

(** What the flag does: a call of the executor that finds the flag clear
    sets it and begins a round; one that finds it set returns after logging
    the skip: no task, no continuation, no call and no exception come of
    it.  So of any sequence of triggers at most one begins a round, none
    does while the flag is set, and any step of the system that begins a
    round found the flag clear.  How long the flag stays set is another
    matter. *)
Theorem single_flight :
  (∀ th w, m_isCallInProgress w = false →
     m_isCallInProgress (state_of (set_active_in_title th w)) = true ∧
     rounds_begun (log (state_of (set_active_in_title th w)))
       = S (rounds_begun (log w))) ∧
  (∀ th w, m_isCallInProgress w = true →
     set_active_in_title th w =
       returned (emit (LOG_INFO "Writting in progress, skip presence writing.") w)) ∧
  (∀ th ts w,
     (rounds_begun (log (state_of (fire_all th ts w)))
        ≤ S (rounds_begun (log w)))%nat ∧
     (m_isCallInProgress w = true →
        ∃ w', fire_all th ts w = returned w' ∧
          m_isCallInProgress w' = true ∧
          rounds_begun (log w') = rounds_begun (log w) ∧
          tasks w' = tasks w ∧
          continuations w' = continuations w ∧
          filter is_presence_call (log w') = filter is_presence_call (log w))) ∧
  (∀ d l w w',
     step d l w = Some w' →
     rounds_begun (log w') ≠ rounds_begun (log w) →
     m_isCallInProgress w = false ∧ m_isCallInProgress w' = true).
Proof.
  split; [apply set_active_in_title_begins_any|].
  split; [apply set_active_in_title_skips|].
  split; [intros th ts w; apply fire_all_rounds | apply step_begins_round].
Qed.

Lemma single_flight_witness :
  (m_isCallInProgress
     (state_of (set_active_in_title no_throw (start_writer alice presence_writer)))
     = true ∧
   rounds_begun
     (log (state_of (set_active_in_title no_throw (start_writer alice presence_writer))))
     = S (rounds_begun (log (start_writer alice presence_writer)))) ∧
  ∃ w', fire_all all_throw [timer_trigger; direct_trigger; timer_trigger]
          (set_active_in_title_done (start_writer alice presence_writer))
          = returned w' ∧
    rounds_begun (log w')
      = rounds_begun (log (set_active_in_title_done (start_writer alice presence_writer))) ∧
    tasks w' = tasks (set_active_in_title_done (start_writer alice presence_writer)).
Proof.
  destruct single_flight as (Hbegin & _ & Hall & _).
  split.
  - apply (Hbegin no_throw (start_writer alice presence_writer)). reflexivity.
  - destruct (Hall all_throw [timer_trigger; direct_trigger; timer_trigger]
                (set_active_in_title_done (start_writer alice presence_writer)))
      as [_ Hheld].
    destruct (Hheld ltac:(vm_compute; reflexivity))
      as (w' & Hfire & _ & Hrounds & Htasks & _).
    exists w'. split; [exact Hfire|]. split; [exact Hrounds | exact Htasks].
Defined.

(** C1: the code with two users registered.  The continuation attached in
    the first pass of the loop awaits the first write alone; when that write
    has completed it clears the flag.  The next tick then finds the flag
    clear and begins a second round, writing both users again, while the
    write for the second user of the first round has not completed: two
    rounds are under way at once. *)
Theorem round_begins_while_write_pending :
  ∃ w w',
    run 5 [do_start_writer alice; do_start_writer bob; do_timer_elapsed;
           do_task_complete 0 hint_3; do_continuation_store 0] presence_writer
      = Some w ∧
    m_isCallInProgress w = false ∧
    tasks w = [Some hint_3; None] ∧
    rounds_begun (log w) = 1%nat ∧
    step 5 do_timer_elapsed w = Some w' ∧
    rounds_begun (log w') = 2%nat ∧
    tasks w' = [Some hint_3; None; None; None] ∧
    filter is_presence_call (log w') =
      [call_set_presence_helper alice true 0; call_set_presence_helper bob true 1;
       call_set_presence_helper alice true 2; call_set_presence_helper bob true 3].
Proof.
  eexists _, _.
  split; [vm_compute; reflexivity|].
  split; [vm_compute; reflexivity|].
  split; [vm_compute; reflexivity|].
  split; [vm_compute; reflexivity|].
  split; [vm_compute; reflexivity|].
  split; [vm_compute; reflexivity|].
  split; vm_compute; reflexivity.
Qed.

(** ** An exception in the executor *)

(** Once the flag is set and no continuation is left to run its store, no
    step of the system clears it. *)
Lemma step_flag_stuck (d : Z) (l : label) (w w' : world) :
  step d l w = Some w' →
  m_isCallInProgress w = true →
  Forall (λ c, stage c ≠ attached) (continuations w) →
  m_isCallInProgress w' = true ∧
  Forall (λ c, stage c ≠ attached) (continuations w').
Proof.
  intros Hstep Hflag Hnone. step_cases Hstep.
  - by destruct (start_writer_async svc w) as (-> & _ & ->).
  - by destruct (stop_writer_async throws id w) as (-> & _ & ->).
  - by destruct (handle_timer_trigger_dropped w Hflag) as (-> & _ & _ & -> & _).
  - done.
  - exfalso. by eapply (Forall_lookup_1 _ _ _ _ Hnone).
  - simpl. rewrite Ek_flag, Ek_conts. split; [done|].
    apply Forall_alter; [done|]. by intros x _ _.
Qed.

Lemma run_flag_stuck (d : Z) (ls : list label) :
  ∀ w w',
    run d ls w = Some w' →
    m_isCallInProgress w = true →
    Forall (λ c, stage c ≠ attached) (continuations w) →
    m_isCallInProgress w' = true.
Proof.
  induction ls as [|l ls IH]; intros w w' Hrun Hflag Hnone; simpl in Hrun.
  - by simplify_eq.
  - destruct (step d l w) as [w1|] eqn:Hstep; [|done]. simpl in Hrun.
    destruct (step_flag_stuck d l w w1 Hstep Hflag Hnone) as [Hflag1 Hnone1].
    by eapply IH.
Qed.

(** C5: the code at a tick in which the call [set_presence_helper] raises,
    with one user registered.  Nothing in [set_active_in_title] or
    [handle_timer_trigger] catches the exception (in [set_inactive_in_title]
    the same kind of call sits in a [try] block): it leaves both functions,
    after the flag was set and before any continuation was attached.  From
    then on the flag stays set: every trigger is skipped, and no step of the
    system clears it. *)
Theorem exception_leaves_flag_set :
  ∃ w',
    handle_timer_trigger all_throw (start_writer alice presence_writer)
      = raised w' ∧
    m_isCallInProgress w' = true ∧
    tasks w' = [] ∧
    continuations w' = [] ∧
    log w' =
      log (start_writer alice presence_writer) ++
        [LOG_INFO "Start presence writer timer trigger";
         LOG_INFO "Start presence writing.";
         raise_set_presence_helper alice true] ∧
    (∀ th, set_active_in_title th w' =
             returned (emit (LOG_INFO "Writting in progress, skip presence writing.") w')) ∧
    (∀ d ls w'', run d ls w' = Some w'' → m_isCallInProgress w'' = true) ∧
    set_inactive_in_title true alice (start_writer alice presence_writer) =
      emit (LOG_ERROR "Set presence inactive fail")
        (emit (call_set_presence alice false) (start_writer alice presence_writer)).
Proof.
  eexists. split; [vm_compute; reflexivity|].
  split; [reflexivity|]. split; [reflexivity|]. split; [reflexivity|].
  split; [vm_compute; reflexivity|].
  split; [intros th; by apply set_active_in_title_skips|].
  split; [|reflexivity].
  intros d ls w'' Hrun. by eapply run_flag_stuck.
Qed.

(** ** The interval after a round *)



(** The last entry of the vector [when_all] hands over is the result of the
    last task waited for. *)
Lemma when_all_last (ts : list (option xbox_live_result)) (ids : list nat)
    (results : list xbox_live_result) (heartBeat : xbox_live_result) :
  when_all ts ids = Some results →
  last results = Some heartBeat →
  ∃ i, last ids = Some i ∧ ts !! i = Some (Some heartBeat).
Proof.
  intros Hall Hlast. apply mapM_Some_1, Forall2_last in Hall.
  rewrite Hlast in Hall. inversion Hall as [i r Hi Hids Hr|]. subst r.
  exists i. split; [done|].
  destruct (ts !! i) as [[r|]|]; simpl in Hi; by simplify_eq.
Qed.






(** ** Order of the two halves of a continuation *)

Lemma step_store_first (d : Z) (l : label) (w w' : world)
    (k : nat) (ck : continuation) :
  step d l w = Some w' →
  continuations w' !! k = Some ck → stage ck ≠ attached →
  l = do_continuation_store k ∨
  ∃ c0, continuations w !! k = Some c0 ∧ stage c0 ≠ attached.
Proof.
  intros Hstep Hk Hst. step_cases Hstep.
  - destruct (start_writer_async svc w) as (_ & _ & Heq).
    rewrite Heq in Hk. right. by exists ck.
  - destruct (stop_writer_async throws id w) as (_ & _ & Heq).
    rewrite Heq in Hk. right. by exists ck.
  - destruct (handle_timer_trigger_async w) as (new & _ & Heq & Hfresh & _).
    rewrite Heq in Hk. right. exists ck. split; [|done].
    destruct (decide (k < length (continuations w))%nat) as [Hlt|Hge].
    + by rewrite lookup_app_l in Hk.
    + rewrite lookup_app_r in Hk by lia.
      by destruct (Forall_lookup_1 _ _ _ _ Hfresh Hk) as (? & _).
  - right. by exists ck.
  - destruct (decide (cid = k)) as [->|Hne]; [by left|]. right.
    simpl in Hk. rewrite list_lookup_alter_ne in Hk by done. by exists ck.
  - right. simpl in Hk. rewrite Ek_conts in Hk.
    destruct (decide (cid = k)) as [->|Hne].
    + exists c. split; [done | congruence].
    + rewrite list_lookup_alter_ne in Hk by done. by exists ck.
Qed.

(** A continuation that is past its first half got there by its store. *)
Lemma run_store_first (d : Z) (ls : list label) :
  ∀ w k ck,
    run d ls presence_writer = Some w →
    continuations w !! k = Some ck → stage ck ≠ attached →
    do_continuation_store k ∈ ls.
Proof.
  induction ls as [|l ls IH] using rev_ind; intros w k ck Hrun Hk Hst.
  - simpl in Hrun. by simplify_eq.
  - rewrite run_app in Hrun.
    destruct (run d ls presence_writer) as [w0|] eqn:Hrun0; [|done].
    simpl in Hrun. destruct (step d l w0) as [w1|] eqn:Hstep; [|done].
    simpl in Hrun. simplify_eq. apply elem_of_app.
    destruct (step_store_first d l w0 w k ck Hstep Hk Hst)
      as [->|(c0 & Hc0 & Hst0)].
    + right. by apply list_elem_of_singleton.
    + left. by eapply IH.
Qed.

Lemma step_store_effect (d : Z) (cid : nat) (w w' : world) :
  step d (do_continuation_store cid) w = Some w' →
  m_isCallInProgress w' = false ∧
  m_heartBeatDelayInMins w' = m_heartBeatDelayInMins w.
Proof.
  intros Hstep.
  by apply step_continuation_store in Hstep as (c & results & _ & _ & _ & ->).
Qed.

(** C4, as the code has it: a continuation resets the flag first and
    updates the countdown afterwards.  In every run, an update of the
    countdown by a continuation comes after the store of that same
    continuation; the store clears the flag and leaves the countdown as it
    was; the update sets the countdown from the continuation's last result
    and does not touch the flag. *)
Theorem flag_reset_before_update (d : Z) (ls1 ls2 : list label) (cid : nat)
    (w : world) :
  run d (ls1 ++ do_continuation_update cid :: ls2) presence_writer = Some w →
  do_continuation_store cid ∈ ls1 ∧
  (∀ w0 w0', step d (do_continuation_store cid) w0 = Some w0' →
     m_isCallInProgress w0' = false ∧
     m_heartBeatDelayInMins w0' = m_heartBeatDelayInMins w0) ∧
  ∃ w1 w2 results heartBeat,
    run d ls1 presence_writer = Some w1 ∧
    step d (do_continuation_update cid) w1 = Some w2 ∧
    (∃ c, continuations w1 !! cid = Some c ∧
          when_all (tasks w1) (awaited c) = Some results) ∧
    last results = Some heartBeat ∧
    m_heartBeatDelayInMins w2 = next_delay d heartBeat ∧
    m_isCallInProgress w2 = m_isCallInProgress w1.
Proof.
  intros Hrun. rewrite run_app in Hrun.
  destruct (run d ls1 presence_writer) as [w1|] eqn:Hrun1; [|done].
  change (step d (do_continuation_update cid) w1 ≫= run d ls2 = Some w) in Hrun.
  destruct (step d (do_continuation_update cid) w1) as [w2|] eqn:Hstep; [|done].
  pose proof Hstep as Hstep'.
  apply step_continuation_update in Hstep'
    as (c & results & w1' & Hc & Hst & Hall & Hupd & ->).
  apply continuation_update_spec in Hupd
    as (heartBeat & Hlast & Hdelay & _ & Ek_flag & _).
  split.
  { apply (run_store_first d ls1 w1 cid c Hrun1 Hc). by rewrite Hst. }
  split; [apply step_store_effect|].
  exists w1, (set_stage cid finished w1'), results, heartBeat.
  repeat split; try done. by exists c.
Qed.

Lemma flag_reset_before_update_witness :
  ∃ w,
    run 5 ([do_start_writer alice; do_timer_elapsed; do_task_complete 0 hint_3;
            do_continuation_store 0] ++ do_continuation_update 0 :: [])
      presence_writer = Some w ∧
    do_continuation_store 0 ∈
      [do_start_writer alice; do_timer_elapsed; do_task_complete 0 hint_3;
       do_continuation_store 0].
Proof.
  refine (let Hrun := _ in
          ex_intro _ _ (conj Hrun (proj1 (flag_reset_before_update 5 _ [] 0 _ Hrun)))).
  vm_compute. reflexivity.
Defined.

(** C4, as stated, fails on this run: one user, the first tick, the write
    answered with a hint of 3 minutes, then the first half of the
    continuation.  The flag is already clear, the countdown is still -1;
    only the second half of the continuation brings it to 3. *)
Lemma flag_clear_before_countdown_set :
  ∃ w w',
    run 5 [do_start_writer alice; do_timer_elapsed;
           do_task_complete 0 hint_3; do_continuation_store 0]
      presence_writer = Some w ∧
    m_isCallInProgress w = false ∧
    m_heartBeatDelayInMins w = -1 ∧
    continuations w = [mk_continuation [0%nat] stored] ∧
    step 5 (do_continuation_update 0) w = Some w' ∧
    m_heartBeatDelayInMins w' = 3.
Proof.
  eexists _, _.
  split; [vm_compute; reflexivity|].
  split; [vm_compute; reflexivity|].
  split; [vm_compute; reflexivity|].
  split; [vm_compute; reflexivity|].
  split; vm_compute; reflexivity.
Qed.

(** With two users the continuation attached in the first pass of the loop
    runs as soon as the first write has completed.  Here alice's write is
    answered with a hint of one minute while bob's is still running: the
    flag is clear, and the next tick begins a second round next to the
    unfinished first one. *)
Lemma flag_clear_while_write_runs :
  ∃ w w',
    run 5 [do_start_writer alice; do_start_writer bob; do_timer_elapsed;
           do_task_complete 0 hint_1; do_continuation_store 0;
           do_continuation_update 0] presence_writer = Some w ∧
    m_isCallInProgress w = false ∧
    tasks w = [Some hint_1; None] ∧
    m_heartBeatDelayInMins w = 1 ∧
    step 5 do_timer_elapsed w = Some w' ∧
    rounds_begun (log w') = 2%nat ∧
    tasks w' = [Some hint_1; None; None; None].
Proof.
  eexists _, _.
  split; [vm_compute; reflexivity|].
  split; [vm_compute; reflexivity|].
  split; [vm_compute; reflexivity|].
  split; [vm_compute; reflexivity|].
  split; [vm_compute; reflexivity|].
  split; vm_compute; reflexivity.
Qed.


(** * Further properties of the writer *)

(** ** The registration table *)

Lemma stop_writer_services_any (throws : bool) (id : string) (w : world) :
  m_presenceServices (stop_writer throws id w) =
    if m_writerInProgress w then delete id (m_presenceServices w)
    else m_presenceServices w.
Proof.
  destruct (m_writerInProgress w) eqn:Hrun.
  - by apply stop_writer_services.
  - by rewrite stop_writer_idle.
Qed.

(** X1: a registration or deregistration touches the entry of the user it
    names and no other; and a registration never replaces the service that
    is already stored for its user. *)
Theorem registration_touches_one_user (svc : presence_service_impl)
    (throws : bool) (id other : string) (w : world) :
  other ≠ user_of svc →
  other ≠ id →
  m_presenceServices (start_writer svc w) !! other = m_presenceServices w !! other ∧
  m_presenceServices (stop_writer throws id w) !! other = m_presenceServices w !! other ∧
  (∀ old, m_presenceServices w !! user_of svc = Some old →
     m_presenceServices (start_writer svc w) !! user_of svc = Some old).
Proof.
  intros Hsvc Hid. split; [|split].
  - rewrite start_writer_services.
    destruct (m_presenceServices w !! user_of svc); [done|].
    by rewrite lookup_insert_ne.
  - rewrite stop_writer_services_any.
    destruct (m_writerInProgress w); [|done]. by rewrite lookup_delete_ne.
  - intros old Hold. rewrite start_writer_services. by rewrite Hold.
Qed.

Lemma registration_touches_one_user_witness :
  m_presenceServices (start_writer bob (start_writer alice presence_writer)) !! "alice"
    = m_presenceServices (start_writer alice presence_writer) !! "alice" ∧
  m_presenceServices (stop_writer false "carol" (start_writer alice presence_writer))
    !! "alice"
    = m_presenceServices (start_writer alice presence_writer) !! "alice".
Proof.
  destruct (registration_touches_one_user bob false "carol" "alice"
              (start_writer alice presence_writer))
    as (Hstart & Hstop & _).
  - vm_compute. discriminate.
  - vm_compute. discriminate.
  - split; [exact Hstart | exact Hstop].
Defined.

(** X2: registering a user that was not registered and deregistering it
    again gives the table back as it was, and makes exactly one call,
    [set_presence(false)] on the service just registered. *)
Theorem register_then_deregister (svc : presence_service_impl) (throws : bool)
    (w : world) :
  m_presenceServices w !! user_of svc = None →
  let w' := stop_writer throws (user_of svc) (start_writer svc w) in
  m_presenceServices w' = m_presenceServices w ∧
  filter is_presence_call (log w') =
    filter is_presence_call (log w) ++ [call_set_presence svc false].
Proof.
  intros Hnew w'.
  pose proof (start_writer_running svc w) as Hrun.
  assert (m_presenceServices (start_writer svc w) !! user_of svc = Some svc) as Hin.
  { rewrite start_writer_services, Hnew. apply lookup_insert_eq. }
  split.
  - unfold w'. rewrite stop_writer_services by done.
    rewrite start_writer_services, Hnew.
    rewrite delete_insert_eq. by apply delete_id.
  - unfold w'. rewrite stop_writer_log by done. rewrite Hin.
    rewrite set_inactive_in_title_log, !filter_app.
    rewrite filter_cons_True by done.
    rewrite start_writer_calls_nothing.
    destruct throws; simpl; by rewrite app_nil_r.
Qed.

Lemma register_then_deregister_witness :
  m_presenceServices
    (stop_writer true "bob" (start_writer bob (start_writer alice presence_writer)))
    = m_presenceServices (start_writer alice presence_writer).
Proof.
  refine (proj1 (register_then_deregister bob true
                   (start_writer alice presence_writer) _)).
  vm_compute. reflexivity.
Defined.

(** X3: deregistering a user that is not registered, on a running writer:
    no presence service is called and the table, the lifecycle flag and the
    countdown are as before, but the timer is stopped all the same. *)
Theorem stop_writer_unknown_user (throws : bool) (id : string) (w : world) :
  running_iff_registered w →
  m_writerInProgress w = true →
  m_presenceServices w !! id = None →
  stop_writer throws id w = emit timer_stop (set_timerComplete true w).
Proof.
  intros Hinv Hrun Hnone. unfold stop_writer. rewrite Hrun, Hnone.
  rewrite decide_False; [done|]. by apply Hinv.
Qed.

Lemma stop_writer_unknown_user_witness :
  stop_writer false "bob" (start_writer alice presence_writer) =
    emit timer_stop (set_timerComplete true (start_writer alice presence_writer)).
Proof.
  apply stop_writer_unknown_user.
  - apply start_writer_running_iff_registered.
  - vm_compute. reflexivity.
  - vm_compute. reflexivity.
Defined.

(** ** Starting the timer *)

Lemma timer_starts_app (l1 l2 : list event) :
  timer_starts (l1 ++ l2) = (timer_starts l1 + timer_starts l2)%nat.
Proof. unfold timer_starts. by rewrite filter_app, length_app. Qed.

(** X4: [start_writer] starts the timer exactly when it finds the writer
    not running; on a running writer it leaves the timer as it is, stopped
    or not. *)
Theorem start_writer_starts_timer (svc : presence_service_impl) (w : world) :
  running_iff_registered w →
  timer_starts (log (start_writer svc w)) =
    (timer_starts (log w) + if m_writerInProgress w then 0 else 1)%nat ∧
  m_timerComplete (start_writer svc w) =
    (if m_writerInProgress w then m_timerComplete w else false).
Proof.
  intros Hinv. unfold start_writer.
  destruct (m_writerInProgress w) eqn:Hrun.
  - destruct (m_presenceServices w !! _); simpl;
      rewrite timer_starts_app;
      match goal with |- (_ + ?n)%nat = _ ∧ _ => change n with 0%nat end; done.
  - assert (m_presenceServices w = ∅) as Hempty.
    { destruct (decide (m_presenceServices w = ∅)) as [|Hne]; [done|].
      apply Hinv in Hne. congruence. }
    simpl. rewrite Hempty, lookup_empty. simpl.
    rewrite <- app_assoc, timer_starts_app.
    match goal with |- (_ + ?n)%nat = _ ∧ _ => change n with 1%nat end; done.
Qed.

Lemma start_writer_starts_timer_witness :
  timer_starts (log (start_writer carol
                       (stop_writer false "alice"
                          (start_writer bob (start_writer alice presence_writer)))))
    = (timer_starts (log (stop_writer false "alice"
                            (start_writer bob (start_writer alice presence_writer))))
       + 0)%nat ∧
  m_timerComplete (start_writer carol
                     (stop_writer false "alice"
                        (start_writer bob (start_writer alice presence_writer))))
    = true.
Proof.
  exact (start_writer_starts_timer carol
           (stop_writer false "alice"
              (start_writer bob (start_writer alice presence_writer)))
           (stop_writer_running_iff_registered false "alice" _
              (start_writer_running_iff_registered bob
                 (start_writer alice presence_writer)))).
Defined.

(** ** What a round issues *)

Lemma filter_imap_all {A B} (P : B → Prop) `{∀ x, Decision (P x)}
    (l : list A) :
  ∀ f : nat → A → B, (∀ k x, P (f k x)) → filter P (imap f l) = imap f l.
Proof.
  induction l as [|x l IH]; intros f Hf; simpl; [done|].
  rewrite filter_cons_True by apply Hf. f_equal. apply IH. intros k y. apply Hf.
Qed.

(** X5: a round that begins and in which every call returns issues one
    write per entry of the table, in the order of the snapshot, each with
    [isUserActiveInTitle = true] and a task of its own, and one continuation
    per entry. *)
Theorem round_writes_every_user (th : presence_service_impl → bool)
    (w w' : world) :
  m_isCallInProgress w = false →
  set_active_in_title th w = returned w' →
  filter is_presence_call (log w') =
    filter is_presence_call (log w) ++
      imap (λ k p, call_set_presence_helper p.2 true (length (tasks w) + k)%nat)
        (snapshot w) ∧
  length (tasks w') = (length (tasks w) + size (m_presenceServices w))%nat ∧
  length (continuations w') =
    (length (continuations w) + size (m_presenceServices w))%nat ∧
  (∀ id svc, m_presenceServices w !! id = Some svc ↔ (id, svc) ∈ snapshot w).
Proof.
  intros Hflag Hret. apply set_active_in_title_returned in Hret as ->.
  rewrite set_active_in_title_begin by done. simpl.
  rewrite !length_app, length_replicate, length_imap.
  unfold snapshot. rewrite length_map_to_list.
  split; [|split; [done|split; [done|]]].
  - rewrite !filter_app. simpl. rewrite app_nil_r. f_equal.
    by apply filter_imap_all.
  - intros id svc. symmetry. apply elem_of_map_to_list.
Qed.

Lemma round_writes_every_user_witness :
  filter is_presence_call (log (set_active_in_title_done two_users)) =
    [call_set_presence_helper alice true 0; call_set_presence_helper bob true 1] ∧
  length (tasks (set_active_in_title_done two_users)) = 2%nat.
Proof.
  destruct (round_writes_every_user no_throw two_users
              (set_active_in_title_done two_users))
    as (Hcalls & Htasks & _).
  - vm_compute. reflexivity.
  - apply set_active_in_title_no_throw.
  - split.
    + etrans; [exact Hcalls | vm_compute; reflexivity].
    + etrans; [exact Htasks | vm_compute; reflexivity].
Defined.

(** ** The flag and the first write of a round *)

(** The continuation attached in the first pass of the loop awaits the first
    write alone: once that write has completed it can run, whatever has
    become of the later ones. *)
Lemma first_continuation_fires (d : Z) (r : xbox_live_result) (w1 : world)
    (ts ts' : list (option xbox_live_result)) (cs cs' : list continuation) :
  tasks w1 = ts ++ None :: ts' →
  continuations w1 = cs ++ mk_continuation [length ts] attached :: cs' →
  ∃ w3,
    run d [do_task_complete (length ts) r; do_continuation_store (length cs)] w1
      = Some w3 ∧
    m_isCallInProgress w3 = false ∧
    tasks w3 = ts ++ Some r :: ts' ∧
    rounds_begun (log w3) = rounds_begun (log w1) ∧
    continuations w3 = cs ++ mk_continuation [length ts] stored :: cs' ∧
    filter is_presence_call (log w3) = filter is_presence_call (log w1) ∧
    m_heartBeatDelayInMins w3 = m_heartBeatDelayInMins w1 ∧
    m_presenceServices w3 = m_presenceServices w1 ∧
    m_timerComplete w3 = m_timerComplete w1.
Proof.
  intros Hts Hcs.
  set (w2 := set_tasks (<[length ts := Some r]> (tasks w1)) w1).
  assert (step d (do_task_complete (length ts) r) w1 = Some w2) as Hstep1.
  { change (step d (do_task_complete (length ts) r) w1)
      with (match tasks w1 !! length ts with
            | Some None => Some w2
            | _ => None
            end).
    by rewrite Hts, list_lookup_middle. }
  assert (tasks w2 = ts ++ Some r :: ts') as Hts2.
  { subst w2. destruct w1; simpl in *. subst.
    rewrite insert_app_r_alt by lia. by rewrite Nat.sub_diag. }
  assert (step d (do_continuation_store (length cs)) w2 =
            Some (set_stage (length cs) stored (continuation_store w2))) as Hstep2.
  { apply step_continuation_store_ready
      with (c := mk_continuation [length ts] attached) (results := [r]).
    - subst w2. destruct w1; simpl in *. subst. by rewrite list_lookup_middle.
    - done.
    - unfold when_all. rewrite Hts2. cbn [awaited mapM].
      rewrite list_lookup_middle by done. reflexivity. }
  eexists. split.
  { change (run d [do_task_complete (length ts) r;
                   do_continuation_store (length cs)] w1)
      with (step d (do_task_complete (length ts) r) w1
              ≫= λ w, step d (do_continuation_store (length cs)) w ≫= Some).
    rewrite Hstep1.
    transitivity (step d (do_continuation_store (length cs)) w2 ≫= Some);
      [reflexivity|].
    rewrite Hstep2. reflexivity. }
  split; [done|]. split; [by rewrite <- Hts2|].
  subst w2. destruct w1; simpl in *. subst. unfold rounds_begun.
  rewrite !filter_app. simpl. rewrite !app_nil_r.
  rewrite alter_app_r_alt by lia. rewrite Nat.sub_diag. done.
Qed.

(** X6: the flag is released after the FIRST write of a round.  When the
    call for the first entry of the snapshot does not raise, then whatever
    happens at the later entries, the completion of that one write lets its
    continuation clear the flag while every later write of the round is
    still pending, and a second round can begin on top of the first. *)
Theorem flag_released_after_first_write (d : Z)
    (th : presence_service_impl → bool) (r : xbox_live_result) (w : world)
    (p : string * presence_service_impl)
    (rest : list (string * presence_service_impl)) :
  m_isCallInProgress w = false →
  snapshot w = p :: rest →
  th p.2 = false →
  ∃ w3 pending,
    run d [do_task_complete (length (tasks w)) r;
           do_continuation_store (length (continuations w))]
      (state_of (set_active_in_title th w)) = Some w3 ∧
    m_isCallInProgress w3 = false ∧
    tasks w3 = tasks w ++ Some r :: replicate pending None ∧
    (Forall (λ q, th q.2 = false) rest → pending = length rest) ∧
    rounds_begun (log (state_of (set_active_in_title th w3)))
      = S (S (rounds_begun (log w))).
Proof.
  intros Hflag Hsnap Hp.
  destruct (set_active_in_title_begins_any th w Hflag) as [_ Hbegun].
  assert (∃ pending cs',
            tasks (state_of (set_active_in_title th w))
              = tasks w ++ None :: replicate pending None ∧
            continuations (state_of (set_active_in_title th w))
              = continuations w ++
                  mk_continuation [length (tasks w)] attached :: cs' ∧
            (Forall (λ q, th q.2 = false) rest → pending = length rest))
    as (pending & cs' & Hts & Hcs & Hpending).
  { destruct (set_active_in_title_cases th w)
      as [Hret | (_ & pre & q & post & Hsplit & Hq & Hraise)].
    - rewrite Hret. simpl state_of.
      rewrite set_active_in_title_begin, Hsnap by done.
      eexists (length rest), _. simpl. done.
    - rewrite Hraise. simpl state_of. rewrite Hsnap in Hsplit.
      destruct pre as [|p' pre']; simpl in Hsplit; simplify_eq; [congruence|].
      eexists (length pre'), _. simpl. repeat split.
      intros Hall. apply Forall_app in Hall as [_ Hall].
      apply Forall_cons in Hall as [Hall _]. congruence. }
  destruct (first_continuation_fires d r _ _ _ _ _ Hts Hcs)
    as (w3 & Hrun & Hflag3 & Hts3 & Hrounds3 & _).
  exists w3, pending. repeat split; try done.
  destruct (set_active_in_title_begins_any th w3 Hflag3) as [_ ->].
  by rewrite Hrounds3, Hbegun.
Qed.

Lemma flag_released_after_first_write_witness :
  ∃ w3,
    run 5 [do_task_complete 0 hint_1; do_continuation_store 0]
      (state_of (set_active_in_title no_throw two_users)) = Some w3 ∧
    m_isCallInProgress w3 = false ∧
    tasks w3 = [Some hint_1; None].
Proof.
  destruct (flag_released_after_first_write 5 no_throw hint_1 two_users
              ("alice", alice) [("bob", bob)])
    as (w3 & pending & Hrun & Hflag & Hts & Hpending & _).
  - vm_compute. reflexivity.
  - vm_compute. reflexivity.
  - reflexivity.
  - exists w3. split; [exact Hrun|]. split; [exact Hflag|].
    rewrite Hts, (Hpending ltac:(repeat constructor)). reflexivity.
Defined.

(** X7: when the call for the first entry of the snapshot raises, the
    function is left with the flag set and with no task and no continuation
    added, and no other user of the snapshot is written.  If no continuation of an earlier round is still due to run its
    first half, nothing a run can do clears the flag again: every later
    attempt is a skipped one. *)
Theorem raise_at_first_entry_wedges (th : presence_service_impl → bool)
    (w : world) (p : string * presence_service_impl)
    (rest : list (string * presence_service_impl)) :
  m_isCallInProgress w = false →
  snapshot w = p :: rest →
  th p.2 = true →
  Forall (λ c, stage c ≠ attached) (continuations w) →
  ∃ w',
    set_active_in_title th w = raised w' ∧
    m_isCallInProgress w' = true ∧
    tasks w' = tasks w ∧
    continuations w' = continuations w ∧
    filter is_presence_call (log w') =
      filter is_presence_call (log w) ++ [raise_set_presence_helper p.2 true] ∧
    ∀ d ls w'', run d ls w' = Some w'' →
      m_isCallInProgress w'' = true ∧
      ∀ th', set_active_in_title th' w'' =
        returned (emit (LOG_INFO "Writting in progress, skip presence writing.") w'').
Proof.
  intros Hflag Hsnap Hp Hconts.
  assert (set_active_in_title th w =
            raised (emit (raise_set_presence_helper p.2 true)
                      (emit (LOG_INFO "Start presence writing.")
                         (set_isCallInProgress true w)))) as Hraise.
  { unfold set_active_in_title, compare_exchange_strong.
    rewrite decide_True by done.
    change (map_to_list (m_presenceServices
              (emit (LOG_INFO "Start presence writing.")
                 (set_isCallInProgress true w))))
      with (snapshot w).
    rewrite Hsnap. simpl. by rewrite Hp. }
  eexists. split; [exact Hraise|].
  split; [done|]. split; [done|]. split; [done|]. split.
  { simpl. rewrite !filter_app. simpl. by rewrite app_nil_r. }
  intros d ls w'' Hrun.
  assert (m_isCallInProgress w'' = true) as Hstuck.
  { eapply run_flag_stuck; [exact Hrun|done|exact Hconts]. }
  split; [done|]. intros th'. by apply set_active_in_title_skips.
Qed.

Lemma raise_at_first_entry_wedges_witness :
  ∃ w',
    set_active_in_title all_throw (start_writer alice presence_writer)
      = raised w' ∧
    m_isCallInProgress w' = true ∧
    tasks w' = tasks (start_writer alice presence_writer).
Proof.
  destruct (raise_at_first_entry_wedges all_throw
              (start_writer alice presence_writer) ("alice", alice) [])
    as (w' & Hraise & Hflag & Hts & _).
  - vm_compute. reflexivity.
  - vm_compute. reflexivity.
  - reflexivity.
  - vm_compute. constructor.
  - exists w'. split; [exact Hraise|]. split; [exact Hflag | exact Hts].
Defined.

(** ** Ticks of the timer *)

Lemma step_timer_running (d : Z) (w : world) :
  m_timerComplete w = false →
  step d do_timer_elapsed w = Some (handle_timer_trigger_done w).
Proof.
  intros Htimer.
  change (step d do_timer_elapsed w)
    with (if m_timerComplete w then None
          else match handle_timer_trigger no_throw w with
               | returned w' => Some w'
               | raised _ => None
               end).
  by rewrite Htimer, handle_timer_trigger_no_throw.
Qed.

Lemma run_cons (d : Z) (l : label) (ls : list label) (w w1 : world) :
  step d l w = Some w1 → run d (l :: ls) w = run d ls w1.
Proof.
  intros Hstep.
  change (run d (l :: ls) w) with (step d l w ≫= run d ls).
  by rewrite Hstep.
Qed.

(** Ticks that find the countdown above one only count down. *)
Lemma ticks_wait (d : Z) (n : nat) :
  ∀ w,
    m_timerComplete w = false →
    Z.of_nat n < m_heartBeatDelayInMins w →
    ∃ w',
      run d (replicate n do_timer_elapsed) w = Some w' ∧
      m_heartBeatDelayInMins w' = m_heartBeatDelayInMins w - Z.of_nat n ∧
      executor_entries (log w') = executor_entries (log w) ∧
      m_timerComplete w' = false ∧
      m_isCallInProgress w' = m_isCallInProgress w ∧
      tasks w' = tasks w ∧
      continuations w' = continuations w.
Proof.
  induction n as [|n IH]; intros w Htimer Hdelay.
  - exists w. repeat split; try done. simpl. lia.
  - pose proof (handle_timer_trigger_entries w) as Hentries.
    rewrite decide_False in Hentries by lia.
    destruct (handle_timer_trigger_cases w) as [_ Hwait].
    specialize (Hwait ltac:(lia)).
    destruct (handle_timer_trigger_frame w) as (_ & Hd & _ & Ht).
    destruct (IH (handle_timer_trigger_done w)) as (w' & Hrun & Hd' & He' & Ht' & Hf' & Hts' & Hcs').
    { congruence. }
    { lia. }
    exists w'. split.
    { change (replicate (S n) do_timer_elapsed)
        with (do_timer_elapsed :: replicate n do_timer_elapsed).
      by rewrite (run_cons d _ _ w _ (step_timer_running d w Htimer)). }
    rewrite Hd', He', Hf', Hts', Hcs', Hentries, Hd, Hwait.
    repeat split; try done; lia.
Qed.

(** X8: the countdown in action.  With the countdown at [k + 1] and the
    timer running, the first [k] ticks do nothing but count down: none of
    them enters the executor or touches a task.  The tick after them finds
    the countdown used up and enters the executor. *)
Theorem attempt_at_last_tick (d : Z) (k : nat) (w : world) :
  m_timerComplete w = false →
  m_heartBeatDelayInMins w = Z.of_nat (S k) →
  (∀ n, (n ≤ k)%nat →
     ∃ w', run d (replicate n do_timer_elapsed) w = Some w' ∧
       executor_entries (log w') = executor_entries (log w) ∧
       m_heartBeatDelayInMins w' = Z.of_nat (S k) - Z.of_nat n ∧
       tasks w' = tasks w) ∧
  ∃ w'', run d (replicate (S k) do_timer_elapsed) w = Some w'' ∧
    executor_entries (log w'') = S (executor_entries (log w)) ∧
    m_heartBeatDelayInMins w'' = 0.
Proof.
  intros Htimer Hdelay. split.
  - intros n Hn.
    destruct (ticks_wait d n w Htimer) as (w' & Hrun & Hd' & He' & _ & _ & Hts' & _);
      [lia|].
    exists w'. repeat split; try done. by rewrite Hd', Hdelay.
  - destruct (ticks_wait d k w Htimer)
      as (w' & Hrun & Hd' & He' & Ht' & _); [lia|].
    exists (handle_timer_trigger_done w'). split.
    { rewrite replicate_S_end, run_app, Hrun.
      transitivity (run d [do_timer_elapsed] w'); [reflexivity|].
      by rewrite (run_cons d _ _ w' _ (step_timer_running d w' Ht')). }
    pose proof (handle_timer_trigger_entries w') as Hentries.
    rewrite decide_True in Hentries by lia.
    destruct (handle_timer_trigger_frame w') as (_ & Hd & _).
    rewrite Hentries, Hd, He'. split; lia.
Qed.

Lemma attempt_at_last_tick_witness :
  ∃ w'',
    run 5 (replicate 3 do_timer_elapsed)
      (set_heartBeatDelayInMins 3 (start_writer alice presence_writer))
      = Some w'' ∧
    executor_entries (log w'') = 1%nat ∧
    m_heartBeatDelayInMins w'' = 0.
Proof.
  destruct (attempt_at_last_tick 5 2
              (set_heartBeatDelayInMins 3 (start_writer alice presence_writer)))
    as (_ & w'' & Hrun & Hentries & Hdelay).
  - vm_compute. reflexivity.
  - vm_compute. reflexivity.
  - exists w''. split; [exact Hrun|]. split; [|exact Hdelay].
    etrans; [exact Hentries | vm_compute; reflexivity].
Defined.

(** X9: ticks while a round is in flight.  With the flag set and the
    countdown used up, every tick enters the executor and is skipped there:
    no round begins, no task and no continuation is added, and the countdown
    goes on falling below zero. *)
Theorem ticks_skipped_while_in_flight (d : Z) (n : nat) :
  ∀ w,
    m_timerComplete w = false →
    m_isCallInProgress w = true →
    m_heartBeatDelayInMins w ≤ 1 →
    ∃ w',
      run d (replicate n do_timer_elapsed) w = Some w' ∧
      executor_entries (log w') = (executor_entries (log w) + n)%nat ∧
      rounds_begun (log w') = rounds_begun (log w) ∧
      filter is_presence_call (log w') = filter is_presence_call (log w) ∧
      tasks w' = tasks w ∧
      continuations w' = continuations w ∧
      m_isCallInProgress w' = true ∧
      m_heartBeatDelayInMins w' = m_heartBeatDelayInMins w - Z.of_nat n.
Proof.
  induction n as [|n IH]; intros w Htimer Hflag Hdelay.
  - exists w. repeat split; try done; simpl; lia.
  - pose proof (handle_timer_trigger_entries w) as Hentries.
    rewrite decide_True in Hentries by lia.
    destruct (handle_timer_trigger_frame w) as (_ & Hd & _ & Ht).
    destruct (handle_timer_trigger_dropped w Hflag)
      as (Hf & Hrounds & Hts & Hcs & Hcalls).
    destruct (IH (handle_timer_trigger_done w))
      as (w' & Hrun & He' & Hr' & Hc' & Hts' & Hcs' & Hf' & Hd');
      [congruence | done | lia |].
    exists w'. split.
    { change (replicate (S n) do_timer_elapsed)
        with (do_timer_elapsed :: replicate n do_timer_elapsed).
      by rewrite (run_cons d _ _ w _ (step_timer_running d w Htimer)). }
    rewrite He', Hr', Hc', Hts', Hcs', Hd', Hentries, Hrounds, Hcalls, Hts, Hcs, Hd.
    repeat split; try done; lia.
Qed.

Lemma ticks_skipped_while_in_flight_witness :
  ∃ w',
    run 5 (replicate 4 do_timer_elapsed)
      (handle_timer_trigger_done (start_writer alice presence_writer))
      = Some w' ∧
    executor_entries (log w') = 5%nat ∧
    rounds_begun (log w') = 1%nat ∧
    m_heartBeatDelayInMins w' = -5.
Proof.
  destruct (ticks_skipped_while_in_flight 5 4
              (handle_timer_trigger_done (start_writer alice presence_writer)))
    as (w' & Hrun & Hentries & Hrounds & _ & _ & _ & _ & Hdelay).
  - vm_compute. reflexivity.
  - vm_compute. reflexivity.
  - vm_compute. discriminate.
  - exists w'. split; [exact Hrun|].
    split; [etrans; [exact Hentries | vm_compute; reflexivity]|].
    split; [etrans; [exact Hrounds | vm_compute; reflexivity]|].
    etrans; [exact Hdelay | vm_compute; reflexivity].
Defined.

(** ** Deregistration and a round in flight *)

Lemma start_writer_delay (svc : presence_service_impl) (w : world) :
  m_heartBeatDelayInMins (start_writer svc w) = m_heartBeatDelayInMins w.
Proof.
  unfold start_writer.
  destruct (m_presenceServices _ !! _), (m_writerInProgress _); done.
Qed.

(** X10: [stop_writer] does not cancel a round in flight.  It leaves the
    flag, the tasks and the continuations alone, so a continuation that was
    due to set the countdown still does so afterwards, also when the
    deregistration emptied the table and reset the countdown to 0; a later
    [start_writer] keeps the countdown the continuation has set. *)
Theorem stop_writer_keeps_round (d : Z) (throws : bool) (id : string)
    (cid : nat) (w w1 : world) :
  step d (do_continuation_update cid) w = Some w1 →
  ∃ w2,
    step d (do_continuation_update cid) (stop_writer throws id w) = Some w2 ∧
    m_heartBeatDelayInMins w2 = m_heartBeatDelayInMins w1 ∧
    m_presenceServices w2 = m_presenceServices (stop_writer throws id w) ∧
    m_writerInProgress w2 = m_writerInProgress (stop_writer throws id w) ∧
    ∀ svc, m_heartBeatDelayInMins (start_writer svc w2)
             = m_heartBeatDelayInMins w1.
Proof.
  intros Hstep.
  apply step_continuation_update in Hstep
    as (c & results & w1' & Hc & Hstage & Hall & Hupd & ->).
  destruct (stop_writer_async throws id w) as (_ & Hts & Hcs).
  destruct (continuation_update_spec d results w w1' Hupd)
    as (heartBeat & Hlast & Hdelay & _).
  set (ws := stop_writer throws id w) in *.
  destruct (continuation_update_total d results ws) as [w2' Hupd'].
  { intros ->. done. }
  destruct (continuation_update_spec d results ws w2' Hupd')
    as (heartBeat' & Hlast' & Hdelay' & Hrun' & _ & Htable' & _).
  assert (heartBeat' = heartBeat) as -> by congruence.
  exists (set_stage cid finished w2').
  assert (m_heartBeatDelayInMins (set_stage cid finished w2')
            = m_heartBeatDelayInMins (set_stage cid finished w1')) as Heq.
  { simpl. congruence. }
  split.
  { rewrite (step_continuation_update_ready d cid c results ws);
      [by rewrite Hupd' | by rewrite Hcs | done | by rewrite Hts]. }
  split; [done|]. split; [done|]. split; [done|].
  intros svc. by rewrite start_writer_delay.
Qed.

Lemma stop_writer_keeps_round_witness :
  ∃ w1 w2,
    run 5 [do_start_writer alice; do_timer_elapsed; do_task_complete 0 hint_3;
           do_continuation_store 0] presence_writer = Some w1 ∧
    m_heartBeatDelayInMins (stop_writer false "alice" w1) = 0 ∧
    step 5 (do_continuation_update 0) (stop_writer false "alice" w1) = Some w2 ∧
    m_presenceServices w2 = ∅ ∧
    m_heartBeatDelayInMins w2 = 3.
Proof.
  destruct (run 5 [do_start_writer alice; do_timer_elapsed;
                   do_task_complete 0 hint_3; do_continuation_store 0]
              presence_writer) as [w1|] eqn:Hrun;
    [|vm_compute in Hrun; discriminate].
  destruct (step 5 (do_continuation_update 0) w1) as [w1'|] eqn:Hstep.
  - destruct (stop_writer_keeps_round 5 false "alice" 0 w1 w1' Hstep)
      as (w2 & Hstep2 & Hdelay & Htable & _).
    exists w1, w2. split; [reflexivity|].
    vm_compute in Hrun. injection Hrun as <-.
    split; [vm_compute; reflexivity|]. split; [exact Hstep2|].
    split.
    + etrans; [exact Htable | vm_compute; reflexivity].
    + etrans; [exact Hdelay|]. vm_compute in Hstep. injection Hstep as <-.
      reflexivity.
  - vm_compute in Hrun. injection Hrun as <-. vm_compute in Hstep. discriminate.
Defined.

(** ** Steps of a round and the registration *)

Lemma step_round_frame (d : Z) (l : label) (w w' : world) :
  step d l w = Some w' →
  match l with
  | do_start_writer _ | do_stop_writer _ _ => True
  | _ =>
      m_presenceServices w' = m_presenceServices w ∧
      m_writerInProgress w' = m_writerInProgress w ∧
      m_timerComplete w' = m_timerComplete w
  end.
Proof.
  intros Hstep. destruct l as [svc|id throws| |tid r|k|k]; try done.
  - apply step_timer_elapsed in Hstep as [_ ->].
    destruct (handle_timer_trigger_frame w) as (? & _ & ? & ?). done.
  - apply step_task_complete in Hstep as [_ ->]. done.
  - apply step_continuation_store in Hstep as (c & results & _ & _ & _ & ->). done.
  - apply step_continuation_update in Hstep
      as (c & results & w1 & _ & _ & _ & Hupd & ->).
    destruct (continuation_update_spec d results w w1 Hupd)
      as (_ & _ & _ & ? & _ & ? & ? & _). done.
Qed.

(** X11: only the two calls of the title change who is registered.  A tick
    of the timer, the completion of a write and both halves of a
    continuation leave the table, the lifecycle flag and the stop flag of
    the timer as they were. *)
Theorem round_steps_keep_registration (d : Z) (l : label) (w w' : world) :
  step d l w = Some w' →
  (∀ svc, l ≠ do_start_writer svc) →
  (∀ id throws, l ≠ do_stop_writer id throws) →
  m_presenceServices w' = m_presenceServices w ∧
  m_writerInProgress w' = m_writerInProgress w ∧
  m_timerComplete w' = m_timerComplete w.
Proof.
  intros Hstep Hstart Hstop. apply step_round_frame in Hstep.
  destruct l as [svc|id throws| | | |]; try done.
  - by destruct (Hstart svc).
  - by destruct (Hstop id throws).
Qed.

Lemma round_steps_keep_registration_witness :
  ∃ w',
    step 5 do_timer_elapsed (start_writer alice presence_writer) = Some w' ∧
    m_presenceServices w' = m_presenceServices (start_writer alice presence_writer).
Proof.
  exists (handle_timer_trigger_done (start_writer alice presence_writer)).
  pose proof (step_timer_running 5 (start_writer alice presence_writer)
                ltac:(vm_compute; reflexivity)) as Hstep.
  split; [exact Hstep|].
  apply (round_steps_keep_registration 5 do_timer_elapsed _ _ Hstep);
    intros; discriminate.
Defined.

(** ** The vector a continuation receives *)

(** X12: in every state the writer can reach, a continuation whose tasks
    have all completed receives a non-empty vector: [results.end() - 1] is
    an element of it, namely the result of the task the continuation awaits
    last.  Once its first half has run, its second half can run and sets the
    countdown from that result: to its payload converted to the countdown
    (the payload itself when it is below 2^31) if it carries no error, to
    the default interval if it does. *)
Theorem continuation_results_nonempty (d : Z) (w : world) (cid : nat)
    (c : continuation) (results : list xbox_live_result) :
  reachable d w →
  continuations w !! cid = Some c →
  when_all (tasks w) (awaited c) = Some results →
  ∃ heartBeat i,
    last results = Some heartBeat ∧
    last (awaited c) = Some i ∧
    tasks w !! i = Some (Some heartBeat) ∧
    (stage c = stored →
       ∃ w', step d (do_continuation_update cid) w = Some w' ∧
         m_heartBeatDelayInMins w' = next_delay d heartBeat ∧
         (err heartBeat = 0 → 0 ≤ payload heartBeat < 2147483648 →
            m_heartBeatDelayInMins w' = payload heartBeat) ∧
         (err heartBeat ≠ 0 → m_heartBeatDelayInMins w' = d)).
Proof.
  intros Hreach Hc Hall.
  destruct (reachable_writer_inv d w Hreach) as (_ & _ & Hwf & _).
  unfold continuations_well_formed in Hwf.
  rewrite Forall_lookup in Hwf. destruct (Hwf cid c Hc) as [Hne _].
  assert (results ≠ []) as Hres.
  { intros ->. unfold when_all in Hall. apply length_mapM in Hall.
    by destruct (awaited c). }
  destruct (last results) as [heartBeat|] eqn:Hlast.
  - destruct (when_all_last _ _ _ _ Hall Hlast) as (i & Hi & Hti).
    exists heartBeat, i. repeat split; try done.
    intros Hstage.
    destruct (continuation_update_total d results w Hres) as [w1 Hupd].
    destruct (continuation_update_spec d results w w1 Hupd)
      as (heartBeat' & Hlast' & Hdelay & _).
    exists (set_stage cid finished w1). split.
    + rewrite (step_continuation_update_ready d cid c results w) by done.
      by rewrite Hupd.
    + assert (m_heartBeatDelayInMins (set_stage cid finished w1)
                = next_delay d heartBeat) as Hnext by (simpl; congruence).
      rewrite Hnext. split; [done|].
      split; intros; [by apply next_delay_small | by apply next_delay_error].
  - apply last_None in Hlast. done.
Qed.

Lemma continuation_results_nonempty_witness :
  ∃ heartBeat,
    last [hint_3] = Some heartBeat ∧
    tasks (set_tasks [Some hint_3]
             (handle_timer_trigger_done (start_writer alice presence_writer))) !! 0%nat
      = Some (Some heartBeat).
Proof.
  destruct (continuation_results_nonempty 5
              (set_tasks [Some hint_3]
                 (handle_timer_trigger_done (start_writer alice presence_writer)))
              0 (mk_continuation [0%nat] attached) [hint_3])
    as (heartBeat & i & Hlast & Hi & Hti & _).
  - apply (run_reachable 5 [do_start_writer alice; do_timer_elapsed;
                            do_task_complete 0 hint_3] presence_writer);
      [constructor | vm_compute; reflexivity].
  - vm_compute. reflexivity.
  - vm_compute. reflexivity.
  - exists heartBeat. split; [exact Hlast|].
    vm_compute in Hi. injection Hi as <-. exact Hti.
Defined.

(** ** A timer that was stopped too early *)

Lemma start_writer_timer (svc : presence_service_impl) (w : world) :
  m_writerInProgress w = true →
  m_timerComplete (start_writer svc w) = m_timerComplete w.
Proof.
  intros Hrun. unfold start_writer. rewrite Hrun.
  by destruct (m_presenceServices _ !! _).
Qed.

Lemma step_rounds_no_tick (d : Z) (l : label) (w w' : world) :
  step d l w = Some w' → l ≠ do_timer_elapsed →
  rounds_begun (log w') = rounds_begun (log w).
Proof.
  intros Hstep Hl. destruct l as [svc|id throws| |tid r|k|k]; simplify_eq.
  - simpl in Hstep. simplify_eq. apply start_writer_rounds.
  - simpl in Hstep. simplify_eq. apply stop_writer_rounds.
  - apply step_task_complete in Hstep as [_ ->]. done.
  - apply step_continuation_store in Hstep as (c & results & _ & _ & _ & ->).
    simpl. by rewrite rounds_begun_app, Nat.add_0_r.
  - apply step_continuation_update in Hstep
      as (c & results & w1 & _ & _ & _ & Hupd & ->).
    simpl. by eapply continuation_update_rounds.
Qed.

Lemma run_timer_stopped (d : Z) (ls : list label) :
  ∀ w w',
    run d ls w = Some w' →
    Forall (λ l, ∀ id throws, l ≠ do_stop_writer id throws) ls →
    m_writerInProgress w = true →
    m_timerComplete w = true →
    m_writerInProgress w' = true ∧
    m_timerComplete w' = true ∧
    (do_timer_elapsed ∉ ls) ∧
    rounds_begun (log w') = rounds_begun (log w).
Proof.
  induction ls as [|l ls IH]; intros w w' Hrun Hls Hrunning Htimer.
  - simpl in Hrun. simplify_eq. repeat split; try done. apply not_elem_of_nil.
  - apply Forall_cons in Hls as [Hl Hls].
    destruct (step d l w) as [w1|] eqn:Hstep;
      [|change (run d (l :: ls) w) with (step d l w ≫= run d ls) in Hrun;
        by rewrite Hstep in Hrun].
    rewrite (run_cons d l ls w w1 Hstep) in Hrun.
    assert (l ≠ do_timer_elapsed) as Hno_tick.
    { intros ->. apply step_timer_elapsed in Hstep as [? _]. congruence. }
    assert (m_writerInProgress w1 = true ∧ m_timerComplete w1 = true) as [Hr1 Ht1].
    { pose proof (step_round_frame d l w w1 Hstep) as Hframe.
      destruct l as [svc|id throws| | | |].
      - simpl in Hstep. simplify_eq.
        by rewrite start_writer_running, start_writer_timer.
      - by destruct (Hl id throws).
      - done.
      - destruct Hframe as (_ & -> & ->). done.
      - destruct Hframe as (_ & -> & ->). done.
      - destruct Hframe as (_ & -> & ->). done. }
    destruct (IH w1 w' Hrun Hls Hr1 Ht1) as (? & ? & Hnotin & Hrounds).
    repeat split; try done.
    + rewrite not_elem_of_cons. done.
    + rewrite Hrounds. by apply (step_rounds_no_tick d l).
Qed.

(** X13: a deregistration that leaves other users registered stops the
    timer for good.  As long as nobody else deregisters, whatever is done
    afterwards (new users registering, writes completing, continuations
    running), the writer stays marked as running with its timer stopped: no
    tick can occur and no round begins. *)
Theorem timer_dead_after_partial_stop (d : Z) (throws : bool) (id : string)
    (w : world) (ls : list label) (w' : world) :
  m_writerInProgress w = true →
  delete id (m_presenceServices w) ≠ ∅ →
  Forall (λ l, ∀ id' throws', l ≠ do_stop_writer id' throws') ls →
  run d ls (stop_writer throws id w) = Some w' →
  m_writerInProgress w' = true ∧
  m_timerComplete w' = true ∧
  step d do_timer_elapsed w' = None ∧
  (do_timer_elapsed ∉ ls) ∧
  rounds_begun (log w') = rounds_begun (log w).
Proof.
  intros Hrunning Hleft Hls Hrun.
  destruct (run_timer_stopped d ls _ w' Hrun Hls) as (Hr' & Ht' & Hnotin & Hrounds).
  { rewrite stop_writer_running by done. by apply bool_decide_eq_true. }
  { by apply stop_writer_timer. }
  repeat split; try done.
  - change (step d do_timer_elapsed w')
      with (if m_timerComplete w' then None
            else match handle_timer_trigger no_throw w' with
                 | returned w'' => Some w''
                 | raised _ => None
                 end).
    by rewrite Ht'.
  - by rewrite Hrounds, stop_writer_rounds.
Qed.

Lemma timer_dead_after_partial_stop_witness :
  m_writerInProgress (start_writer carol (stop_writer false "alice" two_users))
    = true ∧
  step 5 do_timer_elapsed (start_writer carol (stop_writer false "alice" two_users))
    = None.
Proof.
  destruct (timer_dead_after_partial_stop 5 false "alice" two_users
              [do_start_writer carol]
              (start_writer carol (stop_writer false "alice" two_users)))
    as (Hrunning & _ & Hstep & _).
  - vm_compute. reflexivity.
  - intros Hempty. apply (f_equal (λ m, m !! "bob")) in Hempty.
    vm_compute in Hempty. discriminate.
  - constructor; [intros ? ?; discriminate | constructor].
  - reflexivity.
  - split; [exact Hrunning | exact Hstep].
Defined.

(** ** Deregistering again *)

(** X14: deregistering the same user a second time sets no presence and
    changes nothing of the state; at most the timer is told to stop once
    more. *)
Theorem stop_writer_again (throws throws' : bool) (id : string) (w : world) :
  let w1 := stop_writer throws id w in
  let w2 := stop_writer throws' id w1 in
  m_presenceServices w2 = m_presenceServices w1 ∧
  m_writerInProgress w2 = m_writerInProgress w1 ∧
  m_heartBeatDelayInMins w2 = m_heartBeatDelayInMins w1 ∧
  m_timerComplete w2 = m_timerComplete w1 ∧
  filter is_presence_call (log w2) = filter is_presence_call (log w1) ∧
  (log w2 = log w1 ∨ log w2 = log w1 ++ [timer_stop]).
Proof.
  intros w1 w2.
  destruct (m_writerInProgress w) eqn:Hrunning.
  - assert (m_presenceServices w1 !! id = None) as Hgone.
    { subst w1. rewrite stop_writer_services by done. apply lookup_delete_eq. }
    assert (m_timerComplete w1 = true) as Htimer.
    { by apply stop_writer_timer. }
    assert (m_writerInProgress w1 = true → m_presenceServices w1 ≠ ∅) as Hleft.
    { subst w1. rewrite stop_writer_running, stop_writer_services by done.
      by intros ?%bool_decide_eq_true. }
    subst w2. clearbody w1. unfold stop_writer.
    destruct (m_writerInProgress w1) eqn:Hrunning1; [|by auto 10].
    rewrite Hgone, decide_False by auto. simpl.
    rewrite filter_app. simpl. rewrite app_nil_r. by auto 10.
  - subst w2 w1. rewrite (stop_writer_idle throws id w) by done.
    rewrite (stop_writer_idle throws' id w) by done. by auto 10.
Qed.

(** X15: on a writer nobody is registered with, [stop_writer] does nothing
    at all: no presence is set and the timer is not touched. *)
Theorem stop_writer_nobody_registered (d : Z) (throws : bool) (id : string)
    (w : world) :
  reachable d w →
  m_presenceServices w = ∅ →
  stop_writer throws id w = w.
Proof.
  intros Hreach Hempty. apply stop_writer_idle.
  pose proof (reachable_running_iff_registered d w Hreach) as Hinv.
  destruct (m_writerInProgress w) eqn:Hrunning; [|done].
  apply Hinv in Hrunning. done.
Qed.

Lemma stop_writer_nobody_registered_witness :
  stop_writer false "alice"
    (stop_writer false "alice" (start_writer alice presence_writer))
  = stop_writer false "alice" (start_writer alice presence_writer).
Proof.
  apply (stop_writer_nobody_registered 5).
  - apply (run_reachable 5 [do_start_writer alice; do_stop_writer "alice" false]
             presence_writer); [constructor | reflexivity].
  - vm_compute. reflexivity.
Defined.

(** ** One heartbeat of a single user *)

(** X16: the whole cycle for one registered user.  With the countdown used
    up and no round in flight, a tick writes the presence of that user once;
    when the write has completed and its continuation has run, the flag is
    clear again and the countdown is the interval the result stands for: the
    hint of the service converted to the countdown, which is the hint itself
    when it is below 2^31, or the default after an error. *)
Theorem single_user_round (d : Z) (id : string) (svc : presence_service_impl)
    (r : xbox_live_result) (w : world) :
  m_presenceServices w = {[ id := svc ]} →
  m_timerComplete w = false →
  m_isCallInProgress w = false →
  m_heartBeatDelayInMins w ≤ 1 →
  ∃ w',
    run d [do_timer_elapsed;
           do_task_complete (length (tasks w)) r;
           do_continuation_store (length (continuations w));
           do_continuation_update (length (continuations w))] w = Some w' ∧
    m_isCallInProgress w' = false ∧
    m_heartBeatDelayInMins w' = next_delay d r ∧
    (err r = 0 → 0 ≤ payload r < 2147483648 →
       m_heartBeatDelayInMins w' = payload r) ∧
    (err r ≠ 0 → m_heartBeatDelayInMins w' = d) ∧
    filter is_presence_call (log w') =
      filter is_presence_call (log w) ++
        [call_set_presence_helper svc true (length (tasks w))] ∧
    tasks w' = tasks w ++ [Some r] ∧
    m_presenceServices w' = {[ id := svc ]} ∧
    m_timerComplete w' = false.
Proof.
  intros Htable Htimer Hflag Hdelay.
  set (ticked := set_heartBeatDelayInMins (m_heartBeatDelayInMins w - 1)
                   (emit (LOG_INFO "Start presence writer timer trigger") w)).
  assert (snapshot ticked = [(id, svc)]) as Hsnap.
  { unfold snapshot. simpl. rewrite Htable. apply map_to_list_singleton. }
  assert (handle_timer_trigger_done w = set_active_in_title_done ticked) as Htick.
  { destruct (handle_timer_trigger_cases w) as [Hwrite _]. apply Hwrite. lia. }
  rewrite (set_active_in_title_begin ticked Hflag), Hsnap in Htick.
  set (w1 := handle_timer_trigger_done w) in *.
  destruct (first_continuation_fires d r w1 (tasks w) [] (continuations w) [])
    as (w3 & Hrun & Hflag3 & Hts3 & _ & Hcs3 & Hcalls3 & _ & Htable3 & Htimer3).
  { by rewrite Htick. }
  { by rewrite Htick. }
  destruct (continuation_update_total d [r] w3) as [w4 Hupd]; [done|].
  destruct (continuation_update_spec d [r] w3 w4 Hupd)
    as (heartBeat & Hlast & Hdelay4 & _ & Hflag4 & Htable4 & Htimer4 & Hts4 & _).
  simpl in Hlast. injection Hlast as <-.
  assert (filter is_presence_call (log w4) = filter is_presence_call (log w3))
    as Hcalls4.
  { unfold continuation_update in Hupd. simpl in Hupd.
    case_decide; simplify_eq; simpl; [done|].
    rewrite filter_app. simpl. by rewrite app_nil_r. }
  exists (set_stage (length (continuations w)) finished w4). split.
  { rewrite (run_cons d _ _ w _ (step_timer_running d w Htimer)).
    change [do_task_complete (length (tasks w)) r;
            do_continuation_store (length (continuations w));
            do_continuation_update (length (continuations w))]
      with ([do_task_complete (length (tasks w)) r;
             do_continuation_store (length (continuations w))] ++
            [do_continuation_update (length (continuations w))]).
    rewrite run_app. fold w1.
    rewrite Hrun.
    transitivity (step d (do_continuation_update (length (continuations w))) w3
                    ≫= Some); [reflexivity|].
    rewrite (step_continuation_update_ready d _
               (mk_continuation [length (tasks w)] stored) [r] w3).
    - by rewrite Hupd.
    - rewrite Hcs3. by apply list_lookup_middle.
    - done.
    - unfold when_all. rewrite Hts3. cbn [awaited mapM].
      rewrite list_lookup_middle by done. reflexivity. }
  simpl. rewrite Hflag4, Hdelay4, Hcalls4, Hcalls3, Hts4, Hts3, Htable4, Htable3,
    Htimer4, Htimer3, Htick. simpl.
  rewrite !filter_app. simpl. rewrite !app_nil_r, Nat.add_0_r.
  split; [done|]. split; [done|].
  split; [intros; by apply next_delay_small|].
  split; [intros; by apply next_delay_error|].
  repeat split; done.
Qed.

Lemma single_user_round_witness :
  ∃ w',
    run 5 [do_timer_elapsed; do_task_complete 0 failed_write;
           do_continuation_store 0; do_continuation_update 0]
      (start_writer alice presence_writer) = Some w' ∧
    m_isCallInProgress w' = false ∧
    m_heartBeatDelayInMins w' = 5.
Proof.
  destruct (single_user_round 5 "alice" alice failed_write
              (start_writer alice presence_writer))
    as (w' & Hrun & Hflag & _ & _ & Hdelay & _).
  - vm_compute. reflexivity.
  - vm_compute. reflexivity.
  - vm_compute. reflexivity.
  - vm_compute. discriminate.
  - exists w'. split; [exact Hrun|]. split; [exact Hflag|].
    apply Hdelay. discriminate.
Defined.
